(** * AbstractBlock: the block header core of lcoin

    A shallow embedding of [lib/primitives/abstractblock.js]: the header
    object with its six consensus fields, the mutability flag and the derived
    caches; the injectors [parseOptions], [parseJSON] and [parseAbbr]; the
    canonical 80-byte encoding [abbr]/[writeAbbr]; the identity hash [hash],
    the proof-of-work hash [powHash], [verify] and [rhash].

    Methods of the JavaScript object are state transformers on the receiver
    [this]; a JavaScript exception is a [Throw] outcome that leaves the
    receiver in the state it had when the exception was raised.

    The collaborators the file requires ([util], [StaticWriter],
    [BufferReader], [encoding]) are not part of the sources at hand and are
    modelled from the specification; the digests and the consensus rule are
    parameters. *)

From Stdlib Require Import ZArith List String Ascii Bool Lia Compare_dec.
From Stdlib Require Import Strings.Byte.
Import ListNotations.

Set Warnings "-register-all".

Local Open Scope string_scope.
Local Open Scope list_scope.
Local Open Scope Z_scope.

(** ** Bytes *)

Definition bytes := list byte.

Definition byte_to_Z (b : byte) : Z := Z.of_N (Byte.to_N b).

(** The byte holding [z] reduced modulo 256 (a store into a byte array). *)
Definition byte_of_Z (z : Z) : byte :=
  match Byte.of_N (Z.to_N (z mod 256)) with
  | Some b => b
  | None => x00
  end.

(** ** Hexadecimal strings: [toString('hex')] and [write(s, 'hex')] *)

Definition hex_digit (n : Z) : ascii :=
  match n with
  | 0 => "0" | 1 => "1" | 2 => "2" | 3 => "3" | 4 => "4"
  | 5 => "5" | 6 => "6" | 7 => "7" | 8 => "8" | 9 => "9"
  | 10 => "a" | 11 => "b" | 12 => "c" | 13 => "d" | 14 => "e"
  | _ => "f"
  end%char.

(** The value of a hexadecimal digit, in either case, from its character
    code. *)
Definition hex_value (c : ascii) : option Z :=
  let n := Z.of_N (N_of_ascii c) in
  if (48 <=? n) && (n <=? 57) then Some (n - 48)
  else if (97 <=? n) && (n <=? 102) then Some (n - 87)
  else if (65 <=? n) && (n <=? 70) then Some (n - 55)
  else None.

(** Lowercase hexadecimal rendering of a buffer, two digits per byte. *)
Fixpoint toString_hex (b : bytes) : string :=
  match b with
  | [] => ""
  | x :: r =>
      String (hex_digit (byte_to_Z x / 16))
        (String (hex_digit (byte_to_Z x mod 16)) (toString_hex r))
  end.

(** The bytes a hexadecimal string denotes; [None] when the string has an odd
    length or holds a character that is not a hexadecimal digit. *)
Fixpoint fromHex (s : string) : option bytes :=
  match s with
  | "" => Some []
  | String _ "" => None
  | String a (String b r) =>
      match hex_value a, hex_value b, fromHex r with
      | Some h, Some l, Some bs => Some (byte_of_Z (16 * h + l) :: bs)
      | _, _, _ => None
      end
  end.

Definition is_lower_hex_digit (c : ascii) : bool :=
  match hex_value c with
  | Some v => Ascii.eqb (hex_digit v) c
  | None => false
  end.

Fixpoint all_lower_hex (s : string) : bool :=
  match s with
  | "" => true
  | String c r => is_lower_hex_digit c && all_lower_hex r
  end.

(** A hash as the header stores it: 64 lowercase hexadecimal digits, the form
    [readHash('hex')] produces. *)
Definition is_hash (s : string) : bool :=
  Nat.eqb (String.length s) 64 && all_lower_hex s.

(** ** Little-endian unsigned 32-bit integers *)

Definition ToUint32 (z : Z) : Z := z mod 2 ^ 32.

Definition is_u32 (z : Z) : bool := (0 <=? z) && (z <? 2 ^ 32).

Definition u32le (z : Z) : bytes :=
  let v := ToUint32 z in
  [ byte_of_Z v; byte_of_Z (v / 2 ^ 8); byte_of_Z (v / 2 ^ 16);
    byte_of_Z (v / 2 ^ 24) ].

Definition le_value (b : bytes) : Z :=
  fold_right (fun x acc => byte_to_Z x + 2 ^ 8 * acc) 0 b.

(** ** JavaScript values and exceptions *)

(** A JavaScript number; a finite number is represented by its integer value
    (the header's numeric fields are integers), the non-finite ones by name. *)
Inductive number :=
| Int (z : Z)
| NaN
| Infinity (negative : bool).

Inductive jsval :=
| VUndefined
| VNull
| VBool (b : bool)
| VNum (n : number)
| VStr (s : string)
| VObj (props : list (string * jsval)).

(** ToBoolean. *)
Definition truthy (v : jsval) : bool :=
  match v with
  | VUndefined | VNull => false
  | VBool b => b
  | VNum (Int z) => negb (z =? 0)
  | VNum NaN => false
  | VNum (Infinity _) => true
  | VStr s => negb (String.eqb s "")
  | VObj _ => true
  end.

(** [v != null]: everything but [undefined] and [null]. *)
Definition not_nullish (v : jsval) : bool :=
  match v with
  | VUndefined | VNull => false
  | _ => true
  end.

Fixpoint lookup (k : string) (props : list (string * jsval)) : jsval :=
  match props with
  | [] => VUndefined
  | (k', v) :: r => if String.eqb k k' then v else lookup k r
  end.

(** Property read [o.k] on a value that passed [assert(o)]: a missing
    property, and any of the header's property names on a primitive, reads as
    [undefined]. *)
Definition get (o : jsval) (k : string) : jsval :=
  match o with
  | VObj props => lookup k props
  | _ => VUndefined
  end.

Inductive exn :=
| AssertionError (message : option string)
| Error (message : string)
| TypeError (message : string)
| OutOfBounds.

Inductive result (A : Type) :=
| Ok (a : A)
| Throw (e : exn).

Arguments Ok {A} a.
Arguments Throw {A} e.

(** [assert(cond, message)]. *)
Definition assert (cond : bool) (message : option string) : result unit :=
  if cond then Ok tt else Throw (AssertionError message).

Definition rbind {A B} (r : result A) (k : A -> result B) : result B :=
  match r with
  | Ok a => k a
  | Throw e => Throw e
  end.

Declare Scope result_scope.
Delimit Scope result_scope with result.
Notation "x <- r ;; k" := (rbind r (fun x => k))
  (at level 61, r at next level, right associativity) : result_scope.
Notation "r ;; k" := (rbind r (fun _ => k))
  (at level 61, right associativity) : result_scope.

(** Modelled from the spec: the error taxonomy of section 7, read against the
    failure sites of the source. The assertion that carries the message
    'Block data is required.' is the absent-input failure, a bare assertion on
    a field is the wrong-shape failure, the reader running out of bytes is the
    truncation failure and the 'Abstract method.' error is the missing body
    check. *)
Inductive ErrorKind :=
| InvalidData
| TypeMismatch
| TruncatedInput
| NotImplemented.

Definition kind_of (e : exn) : ErrorKind :=
  match e with
  | AssertionError (Some _) => InvalidData
  | AssertionError None => TypeMismatch
  | TypeError _ => TypeMismatch
  | OutOfBounds => TruncatedInput
  | Error _ => NotImplemented
  end.

(** ** util *)

(** Modelled from the spec: [util.isNumber], the check behind "numeric": the
    value has type number and is finite. *)
Definition isNumber (v : jsval) : bool :=
  match v with
  | VNum (Int _) => true
  | _ => false
  end.

(** [typeof v === 'string']. *)
Definition isString (v : jsval) : bool :=
  match v with
  | VStr _ => true
  | _ => false
  end.

(** The number held by a value that passed [isNumber]. *)
Definition num_of (v : jsval) : Z :=
  match v with
  | VNum (Int z) => z
  | _ => 0
  end.

(** The string held by a value that passed [isString]. *)
Definition str_of (v : jsval) : string :=
  match v with
  | VStr s => s
  | _ => ""
  end.

(** Modelled from the spec: [util.revHex], the byte-order reversal of a
    hexadecimal string: the two-character groups of [data] in reverse order
    (each group is prepended to the output in turn). *)
Fixpoint revHex_loop (data out : string) : string :=
  match data with
  | "" => out
  | String a "" => String a out
  | String a (String b r) => revHex_loop r (String a (String b out))
  end.

Definition revHex (data : string) : string := revHex_loop data "".

(** Modelled from the spec: [encoding.NULL_HASH], the all-zero sentinel hash,
    32 zero bytes in hexadecimal. *)
Definition NULL_HASH : string := toString_hex (repeat x00 32).

(** ** The binary codec *)

(** Modelled from the spec: [StaticWriter], the fixed-capacity writer: a
    buffer allocated once at its full size and a count of the bytes written;
    a write stores its bytes at the current position (what falls beyond the
    capacity is dropped) and [render] hands the buffer out only when it has
    been filled exactly. *)
Record StaticWriter := {
  bw_data : bytes;
  bw_written : nat
}.

Definition StaticWriter_new (size : nat) : StaticWriter :=
  {| bw_data := repeat x00 size; bw_written := 0 |}.

Definition writeBytes (value : bytes) (bw : StaticWriter) : StaticWriter :=
  {| bw_data :=
       firstn (List.length (bw_data bw))
         (firstn (bw_written bw) (bw_data bw) ++ value ++
          skipn (bw_written bw + List.length value) (bw_data bw))%list;
     bw_written := bw_written bw + List.length value |}.

(** Modelled from the spec: [writeU32], a little-endian unsigned 32-bit
    integer. *)
Definition writeU32 (value : Z) (bw : StaticWriter) : result StaticWriter :=
  Ok (writeBytes (u32le value) bw).

(** Modelled from the spec: [writeHash] on a string, the 32 bytes that the 64
    hexadecimal digits denote; any other string is refused. *)
Definition writeHash (value : string) (bw : StaticWriter)
  : result StaticWriter :=
  (assert (Nat.eqb (String.length value) 64) None;;
   match fromHex value with
   | Some b => Ok (writeBytes b bw)
   | None => Throw (TypeError "Invalid hex string")
   end)%result.

Definition render (bw : StaticWriter) : result bytes :=
  (assert (Nat.eqb (bw_written bw) (List.length (bw_data bw))) None;;
   Ok (bw_data bw))%result.

(** Modelled from the spec: [BufferReader], a cursor over the wire bytes whose
    reads fail when fewer bytes remain than the field needs. *)
Record BufferReader := {
  br_data : bytes;
  br_offset : nat
}.

Definition BufferReader_new (data : bytes) : BufferReader :=
  {| br_data := data; br_offset := 0 |}.

Definition readBytes (n : nat) (br : BufferReader)
  : result (bytes * BufferReader) :=
  if Nat.leb (br_offset br + n) (List.length (br_data br))
  then Ok (firstn n (skipn (br_offset br) (br_data br)),
           {| br_data := br_data br; br_offset := br_offset br + n |})
  else Throw OutOfBounds.

Definition readU32 (br : BufferReader) : result (Z * BufferReader) :=
  (r <- readBytes 4 br;; Ok (le_value (fst r), snd r))%result.

(** [readHash('hex')]. *)
Definition readHash_hex (br : BufferReader) : result (string * BufferReader) :=
  (r <- readBytes 32 br;; Ok (toString_hex (fst r), snd r))%result.

(** ** The header object *)

Section AbstractBlock.

(** The transaction objects of the block variants and their [refresh] method
    belong to the transaction subsystem. *)
Variable TX : Type.
Variable tx_refresh : TX -> TX.

(** [crypto.hash256], [scrypt] and [consensus.verifyPOW]. *)
Variable hash256 : bytes -> bytes.
Variable scrypt : bytes -> bytes -> Z -> Z -> Z -> Z -> bytes.
Variable consensus_verifyPOW : bytes -> Z -> bool.

(** The properties the constructor installs. [_hash] and [_hhash] are [null]
    or a buffer / a string; [txs] is [null] or an array. *)
Record AbstractBlock := {
  version : Z;
  prevBlock : string;
  merkleRoot : string;
  ts : Z;
  bits : Z;
  nonce : Z;
  txs : option (list TX);
  mutable : bool;
  _hash : option bytes;
  _hhash : option string;
  _size : Z;
  _witness : Z
}.

Definition AbstractBlock_new : AbstractBlock :=
  {| version := 1; prevBlock := NULL_HASH; merkleRoot := NULL_HASH;
     ts := 0; bits := 0; nonce := 0;
     txs := None; mutable := false;
     _hash := None; _hhash := None; _size := -1; _witness := -1 |}.

(** Assignments [this.f = v]. *)
Definition set_version (v : Z) (b : AbstractBlock) : AbstractBlock :=
  {| version := v; prevBlock := prevBlock b; merkleRoot := merkleRoot b;
     ts := ts b; bits := bits b; nonce := nonce b;
     txs := txs b; mutable := mutable b;
     _hash := _hash b; _hhash := _hhash b; _size := _size b;
     _witness := _witness b |}.

Definition set_prevBlock (v : string) (b : AbstractBlock) : AbstractBlock :=
  {| version := version b; prevBlock := v; merkleRoot := merkleRoot b;
     ts := ts b; bits := bits b; nonce := nonce b;
     txs := txs b; mutable := mutable b;
     _hash := _hash b; _hhash := _hhash b; _size := _size b;
     _witness := _witness b |}.

Definition set_merkleRoot (v : string) (b : AbstractBlock) : AbstractBlock :=
  {| version := version b; prevBlock := prevBlock b; merkleRoot := v;
     ts := ts b; bits := bits b; nonce := nonce b;
     txs := txs b; mutable := mutable b;
     _hash := _hash b; _hhash := _hhash b; _size := _size b;
     _witness := _witness b |}.

Definition set_ts (v : Z) (b : AbstractBlock) : AbstractBlock :=
  {| version := version b; prevBlock := prevBlock b;
     merkleRoot := merkleRoot b;
     ts := v; bits := bits b; nonce := nonce b;
     txs := txs b; mutable := mutable b;
     _hash := _hash b; _hhash := _hhash b; _size := _size b;
     _witness := _witness b |}.

Definition set_bits (v : Z) (b : AbstractBlock) : AbstractBlock :=
  {| version := version b; prevBlock := prevBlock b;
     merkleRoot := merkleRoot b;
     ts := ts b; bits := v; nonce := nonce b;
     txs := txs b; mutable := mutable b;
     _hash := _hash b; _hhash := _hhash b; _size := _size b;
     _witness := _witness b |}.

Definition set_nonce (v : Z) (b : AbstractBlock) : AbstractBlock :=
  {| version := version b; prevBlock := prevBlock b;
     merkleRoot := merkleRoot b;
     ts := ts b; bits := bits b; nonce := v;
     txs := txs b; mutable := mutable b;
     _hash := _hash b; _hhash := _hhash b; _size := _size b;
     _witness := _witness b |}.

Definition set_txs (v : option (list TX)) (b : AbstractBlock)
  : AbstractBlock :=
  {| version := version b; prevBlock := prevBlock b;
     merkleRoot := merkleRoot b;
     ts := ts b; bits := bits b; nonce := nonce b;
     txs := v; mutable := mutable b;
     _hash := _hash b; _hhash := _hhash b; _size := _size b;
     _witness := _witness b |}.

Definition set_mutable (v : bool) (b : AbstractBlock) : AbstractBlock :=
  {| version := version b; prevBlock := prevBlock b;
     merkleRoot := merkleRoot b;
     ts := ts b; bits := bits b; nonce := nonce b;
     txs := txs b; mutable := v;
     _hash := _hash b; _hhash := _hhash b; _size := _size b;
     _witness := _witness b |}.

Definition set__hash (v : option bytes) (b : AbstractBlock) : AbstractBlock :=
  {| version := version b; prevBlock := prevBlock b;
     merkleRoot := merkleRoot b;
     ts := ts b; bits := bits b; nonce := nonce b;
     txs := txs b; mutable := mutable b;
     _hash := v; _hhash := _hhash b; _size := _size b;
     _witness := _witness b |}.

Definition set__hhash (v : option string) (b : AbstractBlock)
  : AbstractBlock :=
  {| version := version b; prevBlock := prevBlock b;
     merkleRoot := merkleRoot b;
     ts := ts b; bits := bits b; nonce := nonce b;
     txs := txs b; mutable := mutable b;
     _hash := _hash b; _hhash := v; _size := _size b;
     _witness := _witness b |}.

Definition set__size (v : Z) (b : AbstractBlock) : AbstractBlock :=
  {| version := version b; prevBlock := prevBlock b;
     merkleRoot := merkleRoot b;
     ts := ts b; bits := bits b; nonce := nonce b;
     txs := txs b; mutable := mutable b;
     _hash := _hash b; _hhash := _hhash b; _size := v;
     _witness := _witness b |}.

Definition set__witness (v : Z) (b : AbstractBlock) : AbstractBlock :=
  {| version := version b; prevBlock := prevBlock b;
     merkleRoot := merkleRoot b;
     ts := ts b; bits := bits b; nonce := nonce b;
     txs := txs b; mutable := mutable b;
     _hash := _hash b; _hhash := _hhash b; _size := _size b;
     _witness := v |}.

(** *** Methods as state transformers on [this] *)

Definition M (A : Type) : Type := AbstractBlock -> result A * AbstractBlock.

Definition ret {A} (a : A) : M A := fun this => (Ok a, this).

Definition bind {A B} (m : M A) (k : A -> M B) : M B :=
  fun this =>
    match m this with
    | (Ok a, this') => k a this'
    | (Throw e, this') => (Throw e, this')
    end.

(** A computation that may throw and does not touch [this]. *)
Definition lift {A} (r : result A) : M A := fun this => (r, this).

(** A read of [this] through [f]. *)
Definition reads {A} (f : AbstractBlock -> A) : M A :=
  fun this => (Ok (f this), this).

(** A call of a method that only reads [this]. *)
Definition call {A} (f : AbstractBlock -> result A) : M A :=
  fun this => (f this, this).

(** An assignment to a property of [this]. *)
Definition assign (f : AbstractBlock -> AbstractBlock) : M unit :=
  fun this => (Ok tt, f this).

Declare Scope method_scope.
Delimit Scope method_scope with method.
Notation "x <- m ;; k" := (bind m (fun x => k))
  (at level 61, m at next level, right associativity) : method_scope.
Notation "m ;; k" := (bind m (fun _ => k))
  (at level 61, right associativity) : method_scope.
Local Open Scope method_scope.

(** [parseOptions(options)]: six assertions, six assignments, the optional
    flag. *)
Definition parseOptions (options : jsval) : M unit :=
  lift (assert (truthy options) (Some "Block data is required."));;
  lift (assert (isNumber (get options "version")) None);;
  lift (assert (isString (get options "prevBlock")) None);;
  lift (assert (isString (get options "merkleRoot")) None);;
  lift (assert (isNumber (get options "ts")) None);;
  lift (assert (isNumber (get options "bits")) None);;
  lift (assert (isNumber (get options "nonce")) None);;
  assign (set_version (num_of (get options "version")));;
  assign (set_prevBlock (str_of (get options "prevBlock")));;
  assign (set_merkleRoot (str_of (get options "merkleRoot")));;
  assign (set_ts (num_of (get options "ts")));;
  assign (set_bits (num_of (get options "bits")));;
  assign (set_nonce (num_of (get options "nonce")));;
  (if not_nullish (get options "mutable")
   then assign (set_mutable (truthy (get options "mutable")))
   else ret tt).

(** [parseJSON(json)]. *)
Definition parseJSON (json : jsval) : M unit :=
  lift (assert (truthy json) (Some "Block data is required."));;
  lift (assert (isNumber (get json "version")) None);;
  lift (assert (isString (get json "prevBlock")) None);;
  lift (assert (isString (get json "merkleRoot")) None);;
  lift (assert (isNumber (get json "ts")) None);;
  lift (assert (isNumber (get json "bits")) None);;
  lift (assert (isNumber (get json "nonce")) None);;
  assign (set_version (num_of (get json "version")));;
  assign (set_prevBlock (revHex (str_of (get json "prevBlock"))));;
  assign (set_merkleRoot (revHex (str_of (get json "merkleRoot"))));;
  assign (set_ts (num_of (get json "ts")));;
  assign (set_bits (num_of (get json "bits")));;
  assign (set_nonce (num_of (get json "nonce"))).

(** [_refresh(all)]. *)
Definition _refresh (all : jsval) : M unit :=
  assign (set__hash None);;
  assign (set__hhash None);;
  assign (set__size (-1));;
  assign (set__witness (-1));;
  if negb (truthy all) then ret tt
  else
    t <- reads txs;;
    match t with
    | None => ret tt
    | Some l => assign (set_txs (Some (map tx_refresh l)))
    end.

Definition refresh (all : jsval) : M unit := _refresh all.

(** [writeAbbr(bw)]; the receiver is only read. *)
Definition writeAbbr (this : AbstractBlock) (bw : StaticWriter)
  : result StaticWriter :=
  (bw <- writeU32 (version this) bw;;
   bw <- writeHash (prevBlock this) bw;;
   bw <- writeHash (merkleRoot this) bw;;
   bw <- writeU32 (ts this) bw;;
   bw <- writeU32 (bits this) bw;;
   bw <- writeU32 (nonce this) bw;;
   Ok bw)%result.

(** [abbr()]. *)
Definition abbr (this : AbstractBlock) : result bytes :=
  (bw <- writeAbbr this (StaticWriter_new 80);; render bw)%result.

(** [parseAbbr(br)]: each field is assigned as soon as it is read; the
    reader is returned in the state the reads left it. *)
Definition parseAbbr (br : BufferReader) : M BufferReader :=
  r <- lift (readU32 br);;
  assign (set_version (fst r));;
  r <- lift (readHash_hex (snd r));;
  assign (set_prevBlock (fst r));;
  r <- lift (readHash_hex (snd r));;
  assign (set_merkleRoot (fst r));;
  r <- lift (readU32 (snd r));;
  assign (set_ts (fst r));;
  r <- lift (readU32 (snd r));;
  assign (set_bits (fst r));;
  r <- lift (readU32 (snd r));;
  assign (set_nonce (fst r));;
  ret (snd r).

(** What [hash(enc)] returns: the buffer, or its hexadecimal string. *)
Inductive hashval :=
| Raw (b : bytes)
| Hex (s : string).

(** [enc === 'hex']. *)
Definition is_hex (enc : jsval) : bool :=
  match enc with
  | VStr s => String.eqb s "hex"
  | _ => false
  end.

(** [hash(enc)]. [!hash] holds of [null] only (a buffer is an object);
    [!hex] holds of [null] and of the empty string. *)
Definition hash (enc : jsval) : M hashval :=
  cached <- reads _hash;;
  h <- match cached with
       | Some h => ret h
       | None =>
           data <- call abbr;;
           m <- reads mutable;;
           (if negb m then assign (set__hash (Some (hash256 data)))
            else ret tt);;
           ret (hash256 data)
       end;;
  if is_hex enc then
    cachedhex <- reads _hhash;;
    hex <- (let render_hex :=
              m <- reads mutable;;
              (if negb m then assign (set__hhash (Some (toString_hex h)))
               else ret tt);;
              ret (toString_hex h) in
            match cachedhex with
            | Some s => if String.eqb s "" then render_hex else ret s
            | None => render_hex
            end);;
    ret (Hex hex)
  else ret (Raw h).

(** [powHash()]. *)
Definition powHash (this : AbstractBlock) : result bytes :=
  (data <- abbr this;; Ok (scrypt data data 1024 1 1 32))%result.

(** [verifyPOW()]. *)
Definition verifyPOW (this : AbstractBlock) : result bool :=
  (h <- powHash this;; Ok (consensus_verifyPOW h (bits this)))%result.

(** [rhash()]; [util.revHex] asserts that it is handed a string. *)
Definition rhash : M string :=
  h <- hash (VStr "hex");;
  match h with
  | Hex s => ret (revHex s)
  | Raw _ => lift (Throw (AssertionError None))
  end.

(** [verifyBody] and [verify], dispatched on the concrete block variant: an
    object that holds the header and supplies the body check; the check may
    read and change the whole object. *)
Class BlockVariant (S : Type) := {
  core : S -> AbstractBlock;
  verifyBody : S -> result bool * S
}.

(** [verify()]. *)
Definition verify {S} `{BlockVariant S} (this : S) : result bool * S :=
  match verifyPOW (core this) with
  | Throw e => (Throw e, this)
  | Ok false => (Ok false, this)
  | Ok true =>
      match verifyBody this with
      | (Throw e, this') => (Throw e, this')
      | (Ok false, this') => (Ok false, this')
      | (Ok true, this') => (Ok true, this')
      end
  end.

(** The abstract class itself: [verifyBody] throws. *)
Definition verifyBody_abstract (this : AbstractBlock)
  : result bool * AbstractBlock :=
  (Throw (Error "Abstract method."), this).

#[local] Instance abstract_variant : BlockVariant AbstractBlock :=
  {| core := fun this => this; verifyBody := verifyBody_abstract |}.

End AbstractBlock.

Arguments AbstractBlock_new {TX}.
Arguments parseOptions {TX} options this.
Arguments parseJSON {TX} json this.
Arguments parseAbbr {TX} br this.
Arguments _refresh {TX} tx_refresh all this.
Arguments refresh {TX} tx_refresh all this.
Arguments writeAbbr {TX} this bw.
Arguments abbr {TX} this.
Arguments hash {TX} hash256 enc this.
Arguments powHash {TX} scrypt this.
Arguments verifyPOW {TX} scrypt consensus_verifyPOW this.
Arguments rhash {TX} hash256 this.
Arguments verify {TX} scrypt consensus_verifyPOW {S _} this.
Arguments verifyBody_abstract {TX} this.
Arguments version {TX} _.
Arguments prevBlock {TX} _.
Arguments merkleRoot {TX} _.
Arguments ts {TX} _.
Arguments bits {TX} _.
Arguments nonce {TX} _.
Arguments txs {TX} _.
Arguments mutable {TX} _.
Arguments _hash {TX} _.
Arguments _hhash {TX} _.
Arguments _size {TX} _.
Arguments _witness {TX} _.
Arguments set_version {TX} v b.
Arguments set_prevBlock {TX} v b.
Arguments set_merkleRoot {TX} v b.
Arguments set_ts {TX} v b.
Arguments set_bits {TX} v b.
Arguments set_nonce {TX} v b.
Arguments set_txs {TX} v b.
Arguments set_mutable {TX} v b.
Arguments set__hash {TX} v b.
Arguments set__hhash {TX} v b.
Arguments set__size {TX} v b.
Arguments set__witness {TX} v b.
Arguments core {TX S _} _.
Arguments verifyBody {TX S _} _.

(** ** Predicates on headers *)

(** The six consensus fields. *)
Definition consensus {TX} (b : AbstractBlock TX)
  : Z * string * string * Z * Z * Z :=
  (version b, prevBlock b, merkleRoot b, ts b, bits b, nonce b).

(** The four derived caches. *)
Definition caches {TX} (b : AbstractBlock TX)
  : option bytes * option string * Z * Z :=
  (_hash b, _hhash b, _size b, _witness b).

(** The field values of the data model: four unsigned 32-bit integers and two
    32-byte hashes. *)
Definition valid_fields {TX} (b : AbstractBlock TX) : bool :=
  is_u32 (version b) && is_hash (prevBlock b) && is_hash (merkleRoot b) &&
  is_u32 (ts b) && is_u32 (bits b) && is_u32 (nonce b).

(** The wire layout of an unsigned 32-bit integer as section 6 words it:
    least significant byte first, byte [i] holding bits [8i .. 8i+7]. *)
Definition little_endian_32 (v : Z) : bytes :=
  [ byte_of_Z v; byte_of_Z (v / 256); byte_of_Z (v / 65536);
    byte_of_Z (v / 16777216) ].

(** The checks of [parseOptions] and [parseJSON] all pass. *)
Definition well_formed (o : jsval) : bool :=
  truthy o &&
  isNumber (get o "version") && isString (get o "prevBlock") &&
  isString (get o "merkleRoot") && isNumber (get o "ts") &&
  isNumber (get o "bits") && isNumber (get o "nonce").

(** The hexadecimal cache, when present, renders the raw cache. *)
Definition cache_coherent {TX} (b : AbstractBlock TX) : Prop :=
  forall s, _hhash b = Some s ->
    exists h, _hash b = Some h /\ s = toString_hex h.

(** A cache that is present holds the value derived from the current
    fields. *)
Definition raw_consistent {TX} (hash256 : bytes -> bytes)
    (b : AbstractBlock TX) : Prop :=
  forall h, _hash b = Some h ->
    exists data, abbr b = Ok data /\ h = hash256 data.

Definition hex_consistent {TX} (hash256 : bytes -> bytes)
    (b : AbstractBlock TX) : Prop :=
  forall s, _hhash b = Some s ->
    exists data, abbr b = Ok data /\ s = toString_hex (hash256 data).

(** Both caches absent, or both consistent with the current fields. *)
Definition caches_current {TX} (hash256 : bytes -> bytes)
    (b : AbstractBlock TX) : Prop :=
  (_hash b = None /\ _hhash b = None) \/
  (raw_consistent hash256 b /\ hex_consistent hash256 b).

(** The reading of section 3 under which an operation that changes a
    consensus field clears the four caches. *)
Definition invalidates_on_change {TX}
    (op : AbstractBlock TX -> result unit * AbstractBlock TX) : Prop :=
  forall b b',
    op b = (Ok tt, b') -> consensus b' <> consensus b ->
    caches b' = (None, None, -1, -1).

(** ** States reachable through the methods *)

(** One method call on a header, whatever its outcome. *)
Inductive step {TX} (tx_refresh : TX -> TX) (hash256 : bytes -> bytes)
  : AbstractBlock TX -> AbstractBlock TX -> Prop :=
| step_parseOptions o b r b' :
    parseOptions o b = (r, b') -> step tx_refresh hash256 b b'
| step_parseJSON o b r b' :
    parseJSON o b = (r, b') -> step tx_refresh hash256 b b'
| step_parseAbbr br b r b' :
    parseAbbr br b = (r, b') -> step tx_refresh hash256 b b'
| step_refresh all b r b' :
    refresh tx_refresh all b = (r, b') -> step tx_refresh hash256 b b'
| step_hash enc b r b' :
    hash hash256 enc b = (r, b') -> step tx_refresh hash256 b b'
| step_rhash b r b' :
    rhash hash256 b = (r, b') -> step tx_refresh hash256 b b'.

(** The headers obtained from the constructor by method calls. *)
Inductive reachable {TX} (tx_refresh : TX -> TX) (hash256 : bytes -> bytes)
  : AbstractBlock TX -> Prop :=
| reachable_new : reachable tx_refresh hash256 AbstractBlock_new
| reachable_step b b' :
    reachable tx_refresh hash256 b -> step tx_refresh hash256 b b' ->
    reachable tx_refresh hash256 b'.

(** ** Proof steps *)

Ltac unfold_method :=
  unfold bind, lift, assign, ret, reads, call, assert, rbind.

(** Settles the comparisons of a known length with constants. *)
Ltac settle_leb :=
  repeat match goal with
  | |- context [Nat.leb ?a ?b] =>
      first [ rewrite (proj2 (Nat.leb_le a b)) by lia
            | rewrite (proj2 (Nat.leb_gt a b)) by lia ]
  end.

(** Case analysis on the next check of an injector: it passes, or the
    injector throws there. *)
Ltac first_failed_check :=
  match goal with
  | |- context [if ?c then _ else _] =>
      destruct c eqn:?; cbn [truthy];
      [|eexists; split; reflexivity]
  end.

(** ** Sample collaborators and inputs *)

(** A digest stand-in that keeps its input, so distinct encodings stay
    distinct. *)
Definition sample_hash256 (data : bytes) : bytes := data.

Definition sample_scrypt (passwd salt : bytes) (N r p len : Z) : bytes :=
  firstn (Z.to_nat len) passwd.

(** A consensus rule that accepts a hash whose first byte is zero. *)
Definition sample_verifyPOW (h : bytes) (bits : Z) : bool :=
  match h with
  | x00 :: _ => true
  | _ => false
  end.

(** A block variant whose body check counts its invocations. *)
Record Probe := {
  probe_header : AbstractBlock unit;
  probe_calls : nat
}.

Definition probe_verifyBody (p : Probe) : result bool * Probe :=
  (Ok true,
   {| probe_header := probe_header p; probe_calls := S (probe_calls p) |}).

#[local] Instance probe_variant : BlockVariant unit Probe :=
  {| core := probe_header; verifyBody := probe_verifyBody |}.

Definition sample_header : AbstractBlock unit :=
  {| version := 1; prevBlock := NULL_HASH;
     merkleRoot :=
       "3ba3edfd7a7b12b27ac72c3e67768f617fc81bc3888a51323a9fb8aa4b1e5e4a";
     ts := 1231006505; bits := 486604799; nonce := 2083236893;
     txs := None; mutable := false;
     _hash := None; _hhash := None; _size := -1; _witness := -1 |}.

Definition sample_options : jsval :=
  VObj [ ("version", VNum (Int 1));
         ("prevBlock", VStr NULL_HASH);
         ("merkleRoot", VStr NULL_HASH);
         ("ts", VNum (Int 1231006505));
         ("bits", VNum (Int 486604799));
         ("nonce", VNum (Int 2083236893)) ].

(** The same object carrying the optional flag. *)
Definition mutable_options : jsval :=
  VObj [ ("version", VNum (Int 1));
         ("prevBlock", VStr NULL_HASH);
         ("merkleRoot", VStr NULL_HASH);
         ("ts", VNum (Int 1231006505));
         ("bits", VNum (Int 486604799));
         ("nonce", VNum (Int 2083236893));
         ("mutable", VBool true) ].

(** The sample header while its nonce is searched, and after a step of the
    search. *)
Definition mutable_header : AbstractBlock unit :=
  set_mutable true sample_header.

Definition renonced_header : AbstractBlock unit :=
  set_nonce 2083236894 mutable_header.

(** The sample header carrying caches computed under other field values. *)
Definition stale_header : AbstractBlock unit :=
  set__hhash (Some "00") (set__hash (Some [x00]) sample_header).

(** A header whose encoding starts with a zero byte, which the sample
    consensus rule accepts. *)
Definition passing_header : AbstractBlock unit :=
  set_version 256 sample_header.

Definition failing_probe : Probe :=
  {| probe_header := sample_header; probe_calls := 0 |}.

Definition passing_probe : Probe :=
  {| probe_header := passing_header; probe_calls := 0 |}.

(** The fresh header after [hash('hex')]. *)
Definition hashed_header : AbstractBlock unit :=
  snd (hash sample_hash256 (VStr "hex") AbstractBlock_new).

(** The hashed header after [parseOptions] has given it other fields, with
    and without the [mutable] flag. *)
Definition reinjected_header : AbstractBlock unit :=
  snd (parseOptions sample_options hashed_header).

Definition remutabled_header : AbstractBlock unit :=
  snd (parseOptions mutable_options hashed_header).

Definition short_wire : bytes := repeat x01 79.

Definition sample_wire : bytes := repeat x01 80.

(** An options object without [merkleRoot]. *)
Definition options_missing_merkleRoot : jsval :=
  VObj [ ("version", VNum (Int 1));
         ("prevBlock", VStr NULL_HASH);
         ("ts", VNum (Int 0));
         ("bits", VNum (Int 0));
         ("nonce", VNum (Int 0)) ].

(** An options object whose version is negative. *)
Definition options_negative_version : jsval :=
  VObj [ ("version", VNum (Int (-1)));
         ("prevBlock", VStr NULL_HASH);
         ("merkleRoot", VStr NULL_HASH);
         ("ts", VNum (Int 0));
         ("bits", VNum (Int 0));
         ("nonce", VNum (Int 0)) ].

(** ** The inventory item *)

(** Modelled from the spec: [InvItem], the (type, hash) pair of the
    announcement protocol; its constructor stores its two arguments. The
    type tags, [InvItem.types], belong to the protocol and are a
    parameter. *)
Record InvItem (InvType : Type) := {
  inv_type : InvType;
  inv_hash : hashval
}.

Arguments inv_type {InvType} _.
Arguments inv_hash {InvType} _.

(** [toInv()]: [new InvItem(InvItem.types.BLOCK, this.hash('hex'))]. *)
Definition toInv {TX InvType} (hash256 : bytes -> bytes) (BLOCK : InvType)
    (this : AbstractBlock TX)
  : result (InvItem InvType) * AbstractBlock TX :=
  match hash hash256 (VStr "hex") this with
  | (Ok h, this') => (Ok {| inv_type := BLOCK; inv_hash := h |}, this')
  | (Throw e, this') => (Throw e, this')
  end.

(** ** Further sample inputs *)

(** The header [parseAbbr] decodes from [data] on the receiver [this]. *)
Definition decoded {TX} (data : bytes) (this : AbstractBlock TX)
  : AbstractBlock TX :=
  snd (parseAbbr (BufferReader_new data) this).

(** Two headers in a row on the wire, followed by other bytes. *)
Definition second_wire : bytes := repeat x02 80.

Definition headers_wire : bytes :=
  sample_wire ++ second_wire ++ [x03; x04].

(** A header holding two transactions and a shallow cache. *)
Definition loaded_header : AbstractBlock nat :=
  {| version := 1; prevBlock := NULL_HASH; merkleRoot := NULL_HASH;
     ts := 0; bits := 0; nonce := 0;
     txs := Some [1%nat; 2%nat]; mutable := false;
     _hash := Some [x00]; _hhash := None; _size := 285; _witness := 0 |}.

(** Options in wire order and the same header in display order. *)
Definition wire_options : jsval :=
  VObj [ ("version", VNum (Int 1));
         ("prevBlock", VStr "00ff");
         ("merkleRoot", VStr "a1b2c3");
         ("ts", VNum (Int 7));
         ("bits", VNum (Int 8));
         ("nonce", VNum (Int 9)) ].

Definition display_json : jsval :=
  VObj [ ("version", VNum (Int 1));
         ("prevBlock", VStr "ff00");
         ("merkleRoot", VStr "c3b2a1");
         ("ts", VNum (Int 7));
         ("bits", VNum (Int 8));
         ("nonce", VNum (Int 9));
         ("mutable", VBool true) ].

(** ** Bytes, integers and hexadecimal strings *)

Lemma byte_to_Z_range (b : byte) : 0 <= byte_to_Z b < 256.
Proof.
  unfold byte_to_Z. pose proof (Byte.to_N_bounded b) as Hb.
  lia.
Qed.

Lemma byte_of_to_Z (b : byte) : byte_of_Z (byte_to_Z b) = b.
Proof.
  unfold byte_of_Z. pose proof (byte_to_Z_range b) as Hr.
  rewrite Z.mod_small by lia. unfold byte_to_Z.
  rewrite N2Z.id, Byte.of_to_N. reflexivity.
Qed.

Lemma byte_to_of_Z (z : Z) : byte_to_Z (byte_of_Z z) = z mod 256.
Proof.
  unfold byte_of_Z, byte_to_Z.
  pose proof (Z.mod_pos_bound z 256 ltac:(lia)) as Hm.
  destruct (Byte.of_N (Z.to_N (z mod 256))) as [b|] eqn:E.
  - apply Byte.to_of_N in E. rewrite E. lia.
  - apply Byte.of_N_None_iff in E. lia.
Qed.

Lemma le_value_u32le (v : Z) : le_value (u32le v) = v mod 2 ^ 32.
Proof.
  unfold u32le, le_value, ToUint32. cbn [fold_right].
  rewrite !byte_to_of_Z.
  change (2 ^ 32) with 4294967296. change (2 ^ 8) with 256.
  change (2 ^ 16) with 65536. change (2 ^ 24) with 16777216.
  Z.div_mod_to_equations. lia.
Qed.

Lemma le_value_u32le_id (v : Z) : is_u32 v = true -> le_value (u32le v) = v.
Proof.
  unfold is_u32. intros H. apply andb_prop in H as [H1 H2].
  apply Z.leb_le in H1. apply Z.ltb_lt in H2.
  rewrite le_value_u32le. apply Z.mod_small. lia.
Qed.

Lemma byte_of_Z_eq (z : Z) (b : byte) :
  z mod 256 = byte_to_Z b -> byte_of_Z z = b.
Proof.
  intros H. rewrite <- (byte_of_to_Z b). unfold byte_of_Z.
  rewrite H. rewrite (Z.mod_small (byte_to_Z b)); [reflexivity|].
  apply byte_to_Z_range.
Qed.

Lemma u32le_le_value (b0 b1 b2 b3 : byte) :
  u32le (le_value [b0; b1; b2; b3]) = [b0; b1; b2; b3].
Proof.
  unfold u32le, le_value, ToUint32. cbn [fold_right].
  pose proof (byte_to_Z_range b0). pose proof (byte_to_Z_range b1).
  pose proof (byte_to_Z_range b2). pose proof (byte_to_Z_range b3).
  change (2 ^ 32) with 4294967296. change (2 ^ 8) with 256.
  change (2 ^ 16) with 65536. change (2 ^ 24) with 16777216.
  f_equal; [|f_equal; [|f_equal; [|f_equal]]];
    apply byte_of_Z_eq; Z.div_mod_to_equations; lia.
Qed.

Lemma le_value_is_u32 (b0 b1 b2 b3 : byte) :
  is_u32 (le_value [b0; b1; b2; b3]) = true.
Proof.
  unfold is_u32, le_value. cbn [fold_right].
  pose proof (byte_to_Z_range b0). pose proof (byte_to_Z_range b1).
  pose proof (byte_to_Z_range b2). pose proof (byte_to_Z_range b3).
  apply andb_true_intro. split; [apply Z.leb_le | apply Z.ltb_lt]; lia.
Qed.

Lemma hex_byte_roundtrip (b : byte) :
  hex_value (hex_digit (byte_to_Z b / 16)) = Some (byte_to_Z b / 16) /\
  hex_value (hex_digit (byte_to_Z b mod 16)) = Some (byte_to_Z b mod 16) /\
  is_lower_hex_digit (hex_digit (byte_to_Z b / 16)) = true /\
  is_lower_hex_digit (hex_digit (byte_to_Z b mod 16)) = true.
Proof. destruct b; repeat split; reflexivity. Qed.

Lemma fromHex_toString_hex (b : bytes) : fromHex (toString_hex b) = Some b.
Proof.
  induction b as [|x r IH]; [reflexivity|].
  cbn [toString_hex fromHex].
  destruct (hex_byte_roundtrip x) as (Hh & Hl & _ & _).
  rewrite Hh, Hl, IH. f_equal. f_equal.
  apply byte_of_Z_eq.
  pose proof (byte_to_Z_range x). Z.div_mod_to_equations. lia.
Qed.

Lemma length_toString_hex (b : bytes) :
  String.length (toString_hex b) = (2 * List.length b)%nat.
Proof. induction b; cbn [toString_hex String.length List.length]; lia. Qed.

Lemma all_lower_hex_toString_hex (b : bytes) :
  all_lower_hex (toString_hex b) = true.
Proof.
  induction b as [|x r IH]; [reflexivity|].
  cbn [toString_hex all_lower_hex].
  destruct (hex_byte_roundtrip x) as (_ & _ & Hh & Hl).
  rewrite Hh, Hl, IH. reflexivity.
Qed.

Lemma is_hash_toString_hex (b : bytes) :
  List.length b = 32%nat -> is_hash (toString_hex b) = true.
Proof.
  intros H. unfold is_hash.
  rewrite length_toString_hex, H, all_lower_hex_toString_hex. reflexivity.
Qed.

Lemma lower_hex_digit_inv (c : ascii) :
  is_lower_hex_digit c = true ->
  exists v, hex_value c = Some v /\ 0 <= v < 16 /\ hex_digit v = c.
Proof.
  intros H.
  destruct c as [b0 b1 b2 b3 b4 b5 b6 b7].
  destruct b0, b1, b2, b3, b4, b5, b6, b7; cbv in H; try discriminate H;
    eexists; (split; [cbv; reflexivity|split; [lia|reflexivity]]).
Qed.

Lemma fromHex_lower (n : nat) : forall s,
  String.length s = (2 * n)%nat -> all_lower_hex s = true ->
  exists b, fromHex s = Some b /\ List.length b = n /\ toString_hex b = s.
Proof.
  induction n as [|n IH]; intros s Hlen Hlow.
  - destruct s; [|discriminate Hlen]. exists []. repeat split.
  - destruct s as [|a [|b r]]; cbn [String.length] in Hlen; try lia.
    cbn [all_lower_hex] in Hlow.
    apply andb_prop in Hlow as [Ha Hlow].
    apply andb_prop in Hlow as [Hb Hr].
    destruct (lower_hex_digit_inv a Ha) as (h & Eh & Rh & Dh).
    destruct (lower_hex_digit_inv b Hb) as (l & El & Rl & Dl).
    destruct (IH r) as (bs & Ebs & Lbs & Tbs); [cbn in Hlen; lia|exact Hr|].
    exists (byte_of_Z (16 * h + l) :: bs).
    cbn [fromHex toString_hex List.length]. rewrite Eh, El, Ebs.
    rewrite byte_to_of_Z, Tbs.
    replace ((16 * h + l) mod 256 / 16) with h
      by (Z.div_mod_to_equations; lia).
    replace ((16 * h + l) mod 256 mod 16) with l
      by (Z.div_mod_to_equations; lia).
    rewrite Dh, Dl, Lbs. repeat split.
Qed.

Lemma is_hash_fromHex (s : string) :
  is_hash s = true ->
  exists b, fromHex s = Some b /\ List.length b = 32%nat /\
    toString_hex b = s.
Proof.
  unfold is_hash. intros H. apply andb_prop in H as [Hlen Hlow].
  apply Nat.eqb_eq in Hlen. apply (fromHex_lower 32); assumption.
Qed.

Lemma toString_hex_inj (a b : bytes) :
  toString_hex a = toString_hex b -> a = b.
Proof.
  intros H. apply (f_equal fromHex) in H.
  rewrite !fromHex_toString_hex in H. congruence.
Qed.

Lemma string_app_assoc (a b c : string) :
  ((a ++ b) ++ c = a ++ (b ++ c))%string.
Proof. induction a as [|x a IH]; cbn; [|rewrite IH]; reflexivity. Qed.

Lemma string_app_nil (a : string) : (a ++ "" = a)%string.
Proof. induction a as [|x a IH]; cbn; [|rewrite IH]; reflexivity. Qed.

Lemma toString_hex_app (p q : bytes) :
  toString_hex (p ++ q)%list = (toString_hex p ++ toString_hex q)%string.
Proof.
  induction p as [|y p IHp]; [reflexivity|].
  cbn [toString_hex app String.append]. rewrite IHp. reflexivity.
Qed.

Lemma revHex_loop_hex (b : bytes) : forall out,
  revHex_loop (toString_hex b) out = (toString_hex (rev b) ++ out)%string.
Proof.
  induction b as [|x r IH]; intros out; [reflexivity|].
  cbn [toString_hex revHex_loop rev]. rewrite IH.
  rewrite toString_hex_app, string_app_assoc. reflexivity.
Qed.

(** [revHex] reverses the byte order of a hexadecimal rendering. *)
Lemma revHex_toString_hex (b : bytes) :
  revHex (toString_hex b) = toString_hex (rev b).
Proof.
  unfold revHex. rewrite revHex_loop_hex. apply string_app_nil.
Qed.

(** ** The codec on the header's fields *)

Lemma firstn_app_exact {A} (n : nat) (p r : list A) :
  List.length p = n -> firstn n (p ++ r) = p.
Proof.
  intros <-. rewrite firstn_app, Nat.sub_diag, firstn_all. cbn.
  apply app_nil_r.
Qed.

Lemma skipn_app_exact {A} (n j : nat) (p r : list A) :
  List.length p = n -> skipn (n + j) (p ++ r) = skipn j r.
Proof.
  intros <-. rewrite skipn_app.
  rewrite skipn_all2 by lia. cbn [app]. f_equal. lia.
Qed.

Lemma length_u32le (v : Z) : List.length (u32le v) = 4%nat.
Proof. reflexivity. Qed.

Lemma length_fromHex (s : string) : forall b,
  fromHex s = Some b -> String.length s = (2 * List.length b)%nat.
Proof.
  remember (String.length s) as n eqn:Hn. revert s Hn.
  induction n as [n IH] using lt_wf_ind. intros s Hn b H.
  destruct s as [|x [|y r]]; cbn [fromHex] in H.
  - inversion H. subst. reflexivity.
  - discriminate H.
  - destruct (hex_value x), (hex_value y); try discriminate H.
    destruct (fromHex r) as [bs|] eqn:E; [|discriminate H].
    inversion H. subst b. cbn [String.length List.length] in *.
    rewrite (IH (String.length r)) with (s := r) (b := bs) in Hn;
      try reflexivity; try assumption; lia.
Qed.

(** A write into the unwritten tail of the buffer. *)
Lemma writeBytes_fill (pre value fill : bytes) :
  (List.length value <= List.length fill)%nat ->
  writeBytes value {| bw_data := pre ++ fill;
                      bw_written := List.length pre |}
  = {| bw_data := (pre ++ value) ++ skipn (List.length value) fill;
       bw_written := List.length (pre ++ value) |}.
Proof.
  intros Hle. unfold writeBytes. cbn [bw_data bw_written].
  rewrite (firstn_app_exact (List.length pre) pre fill) by reflexivity.
  rewrite (skipn_app_exact (List.length pre) (List.length value) pre fill)
    by reflexivity.
  rewrite firstn_all2.
  - rewrite app_assoc, length_app. reflexivity.
  - rewrite !length_app, length_skipn. lia.
Qed.

(** The canonical encoding of a header whose hash fields denote [p] and
    [m]. *)
Lemma abbr_bytes {TX} (h : AbstractBlock TX) (p m : bytes) :
  String.length (prevBlock h) = 64%nat ->
  String.length (merkleRoot h) = 64%nat ->
  fromHex (prevBlock h) = Some p ->
  fromHex (merkleRoot h) = Some m ->
  abbr h = Ok (u32le (version h) ++ p ++ m ++
               u32le (ts h) ++ u32le (bits h) ++ u32le (nonce h)).
Proof.
  intros Lp Lm Hp Hm.
  pose proof (length_fromHex _ _ Hp) as Lp'.
  pose proof (length_fromHex _ _ Hm) as Lm'.
  assert (Lpb : List.length p = 32%nat) by lia.
  assert (Lmb : List.length m = 32%nat) by lia.
  unfold abbr, writeAbbr, writeU32, writeHash, StaticWriter_new.
  rewrite Lp, Lm, Hp, Hm. cbn [Nat.eqb assert rbind].
  change {| bw_data := repeat x00 80; bw_written := 0 |}
    with {| bw_data := @nil byte ++ repeat x00 80;
            bw_written := List.length (@nil byte) |}.
  rewrite writeBytes_fill by (rewrite repeat_length, length_u32le; lia).
  rewrite writeBytes_fill
    by (rewrite length_skipn, repeat_length, length_u32le; lia).
  rewrite writeBytes_fill
    by (rewrite !length_skipn, repeat_length, length_u32le; lia).
  rewrite writeBytes_fill
    by (rewrite !length_skipn, repeat_length, !length_u32le; lia).
  rewrite writeBytes_fill
    by (rewrite !length_skipn, repeat_length, !length_u32le; lia).
  rewrite writeBytes_fill
    by (rewrite !length_skipn, repeat_length, !length_u32le; lia).
  unfold render. cbn [bw_data bw_written].
  assert (Hfill : skipn (List.length (u32le (nonce h)))
            (skipn (List.length (u32le (bits h)))
              (skipn (List.length (u32le (ts h)))
                (skipn (List.length m)
                  (skipn (List.length p)
                    (skipn (List.length (u32le (version h)))
                      (repeat x00 80)))))) = []).
  { rewrite Lpb, Lmb, !length_u32le. reflexivity. }
  rewrite Hfill, app_nil_r.
  rewrite Nat.eqb_refl. cbn [assert rbind].
  rewrite <- !app_assoc. reflexivity.
Qed.

Lemma valid_fields_inv {TX} (h : AbstractBlock TX) :
  valid_fields h = true ->
  is_u32 (version h) = true /\ is_hash (prevBlock h) = true /\
  is_hash (merkleRoot h) = true /\ is_u32 (ts h) = true /\
  is_u32 (bits h) = true /\ is_u32 (nonce h) = true.
Proof. unfold valid_fields. rewrite !andb_true_iff. tauto. Qed.

Lemma abbr_valid {TX} (h : AbstractBlock TX) :
  valid_fields h = true ->
  exists p m,
    fromHex (prevBlock h) = Some p /\ List.length p = 32%nat /\
    toString_hex p = prevBlock h /\
    fromHex (merkleRoot h) = Some m /\ List.length m = 32%nat /\
    toString_hex m = merkleRoot h /\
    abbr h = Ok (u32le (version h) ++ p ++ m ++
                 u32le (ts h) ++ u32le (bits h) ++ u32le (nonce h)).
Proof.
  intros H. apply valid_fields_inv in H as (_ & H1 & H2 & _).
  destruct (is_hash_fromHex (prevBlock h)) as (p & Hp & Lp & Tp);
    [assumption|].
  destruct (is_hash_fromHex (merkleRoot h)) as (m & Hm & Lm & Tm);
    [assumption|].
  exists p, m. repeat split; try assumption.
  apply abbr_bytes; try assumption.
  - rewrite <- Tp, length_toString_hex, Lp. reflexivity.
  - rewrite <- Tm, length_toString_hex, Lm. reflexivity.
Qed.

(** The encoding reads the six consensus fields and nothing else. *)
Lemma abbr_consensus {TX} (h h' : AbstractBlock TX) :
  consensus h' = consensus h -> abbr h' = abbr h.
Proof.
  unfold consensus. intros H. inversion H as [[Hv Hp Hm Ht Hb Hn]].
  unfold abbr, writeAbbr. rewrite Hv, Hp, Hm, Ht, Hb, Hn. reflexivity.
Qed.

Lemma readU32_ok (data : bytes) (k : nat) :
  (k + 4 <= List.length data)%nat ->
  readU32 {| br_data := data; br_offset := k |} =
  Ok (le_value (firstn 4 (skipn k data)),
      {| br_data := data; br_offset := k + 4 |}).
Proof.
  intros H. unfold readU32, readBytes. cbn [br_data br_offset].
  apply Nat.leb_le in H. rewrite H. reflexivity.
Qed.

Lemma readHash_hex_ok (data : bytes) (k : nat) :
  (k + 32 <= List.length data)%nat ->
  readHash_hex {| br_data := data; br_offset := k |} =
  Ok (toString_hex (firstn 32 (skipn k data)),
      {| br_data := data; br_offset := k + 32 |}).
Proof.
  intros H. unfold readHash_hex, readBytes. cbn [br_data br_offset].
  apply Nat.leb_le in H. rewrite H. reflexivity.
Qed.

Lemma readU32_short (data : bytes) (k : nat) :
  (List.length data < k + 4)%nat ->
  readU32 {| br_data := data; br_offset := k |} = Throw OutOfBounds.
Proof.
  intros H. unfold readU32, readBytes. cbn [br_data br_offset].
  apply Nat.leb_gt in H. rewrite H. reflexivity.
Qed.

Lemma readHash_hex_short (data : bytes) (k : nat) :
  (List.length data < k + 32)%nat ->
  readHash_hex {| br_data := data; br_offset := k |} = Throw OutOfBounds.
Proof.
  intros H. unfold readHash_hex, readBytes. cbn [br_data br_offset].
  apply Nat.leb_gt in H. rewrite H. reflexivity.
Qed.

(** Decoding 80 bytes assigns the six fields from the fixed offsets. *)
Lemma parseAbbr_full {TX} (data : bytes) (this : AbstractBlock TX) :
  List.length data = 80%nat ->
  parseAbbr (BufferReader_new data) this =
  (Ok {| br_data := data; br_offset := 80 |},
   set_nonce (le_value (firstn 4 (skipn 76 data)))
     (set_bits (le_value (firstn 4 (skipn 72 data)))
        (set_ts (le_value (firstn 4 (skipn 68 data)))
           (set_merkleRoot (toString_hex (firstn 32 (skipn 36 data)))
              (set_prevBlock (toString_hex (firstn 32 (skipn 4 data)))
                 (set_version (le_value (firstn 4 (skipn 0 data)))
                    this)))))).
Proof.
  intros Hlen. unfold parseAbbr, BufferReader_new. unfold_method.
  rewrite readU32_ok by lia. cbn [fst snd Nat.add].
  rewrite readHash_hex_ok by lia. cbn [fst snd Nat.add].
  rewrite readHash_hex_ok by lia. cbn [fst snd Nat.add].
  rewrite readU32_ok by lia. cbn [fst snd Nat.add].
  rewrite readU32_ok by lia. cbn [fst snd Nat.add].
  rewrite readU32_ok by lia. cbn [fst snd Nat.add].
  reflexivity.
Qed.

(** Decoding fewer than 80 bytes throws at the first field that does not
    fit. *)
Lemma parseAbbr_short {TX} (data : bytes) (this : AbstractBlock TX) :
  (List.length data < 80)%nat ->
  exists this', parseAbbr (BufferReader_new data) this
                = (Throw OutOfBounds, this').
Proof.
  intros Hlen. unfold parseAbbr, BufferReader_new. unfold_method.
  destruct (le_lt_dec 4 (List.length data)) as [H1|H1];
    [rewrite readU32_ok by lia; cbn [fst snd Nat.add]
    |rewrite readU32_short by lia; eexists; reflexivity].
  destruct (le_lt_dec 36 (List.length data)) as [H2|H2];
    [rewrite readHash_hex_ok by lia; cbn [fst snd Nat.add]
    |rewrite readHash_hex_short by lia; eexists; reflexivity].
  destruct (le_lt_dec 68 (List.length data)) as [H3|H3];
    [rewrite readHash_hex_ok by lia; cbn [fst snd Nat.add]
    |rewrite readHash_hex_short by lia; eexists; reflexivity].
  destruct (le_lt_dec 72 (List.length data)) as [H4|H4];
    [rewrite readU32_ok by lia; cbn [fst snd Nat.add]
    |rewrite readU32_short by lia; eexists; reflexivity].
  destruct (le_lt_dec 76 (List.length data)) as [H5|H5];
    [rewrite readU32_ok by lia; cbn [fst snd Nat.add]
    |rewrite readU32_short by lia; eexists; reflexivity].
  rewrite readU32_short by lia. eexists. reflexivity.
Qed.

Lemma u32le_le_value_4 (l : bytes) :
  List.length l = 4%nat -> u32le (le_value l) = l.
Proof.
  intros H. destruct l as [|b0 [|b1 [|b2 [|b3 [|b4 l]]]]];
    try discriminate H.
  apply u32le_le_value.
Qed.

Lemma is_u32_le_value_4 (l : bytes) :
  List.length l = 4%nat -> is_u32 (le_value l) = true.
Proof.
  intros H. destruct l as [|b0 [|b1 [|b2 [|b3 [|b4 l]]]]];
    try discriminate H.
  apply le_value_is_u32.
Qed.

Lemma length_slice (n k : nat) (data : bytes) :
  (k + n <= List.length data)%nat ->
  List.length (firstn n (skipn k data)) = n.
Proof. intros H. rewrite length_firstn, length_skipn. lia. Qed.

(** The 80 bytes are the concatenation of the six field slices. *)
Lemma slices_80 (data : bytes) :
  List.length data = 80%nat ->
  firstn 4 (skipn 0 data) ++ firstn 32 (skipn 4 data) ++
  firstn 32 (skipn 36 data) ++ firstn 4 (skipn 68 data) ++
  firstn 4 (skipn 72 data) ++ firstn 4 (skipn 76 data) = data.
Proof.
  intros H.
  do 80 (destruct data as [|? data]; [discriminate H|]).
  destruct data; [reflexivity|discriminate H].
Qed.

Lemma slice_app {A} (k n : nat) (pre x post : list A) :
  List.length pre = k -> List.length x = n ->
  firstn n (skipn k (pre ++ x ++ post)) = x.
Proof.
  intros Hk Hn. replace k with (k + 0)%nat by lia.
  rewrite skipn_app_exact by assumption. cbn [skipn].
  apply firstn_app_exact. assumption.
Qed.

Lemma slices_of_concat (a p m t b n : bytes) :
  List.length a = 4%nat -> List.length p = 32%nat ->
  List.length m = 32%nat -> List.length t = 4%nat ->
  List.length b = 4%nat -> List.length n = 4%nat ->
  let data := a ++ p ++ m ++ t ++ b ++ n in
  List.length data = 80%nat /\
  firstn 4 (skipn 0 data) = a /\ firstn 32 (skipn 4 data) = p /\
  firstn 32 (skipn 36 data) = m /\ firstn 4 (skipn 68 data) = t /\
  firstn 4 (skipn 72 data) = b /\ firstn 4 (skipn 76 data) = n.
Proof.
  intros La Lp Lm Lt Lb Ln data. subst data. repeat split.
  - rewrite !length_app. lia.
  - apply (slice_app 0 4 [] a); [reflexivity|assumption].
  - apply slice_app; assumption.
  - replace (a ++ p ++ m ++ t ++ b ++ n)
      with ((a ++ p) ++ m ++ (t ++ b ++ n))
      by (rewrite <- !app_assoc; reflexivity).
    apply slice_app; [rewrite length_app; lia|assumption].
  - replace (a ++ p ++ m ++ t ++ b ++ n)
      with ((a ++ p ++ m) ++ t ++ (b ++ n))
      by (rewrite <- !app_assoc; reflexivity).
    apply slice_app; [rewrite !length_app; lia|assumption].
  - replace (a ++ p ++ m ++ t ++ b ++ n)
      with ((a ++ p ++ m ++ t) ++ b ++ n)
      by (rewrite <- !app_assoc; reflexivity).
    apply slice_app; [rewrite !length_app; lia|assumption].
  - replace (a ++ p ++ m ++ t ++ b ++ n)
      with ((a ++ p ++ m ++ t ++ b) ++ n ++ [])
      by (rewrite <- !app_assoc, app_nil_r; reflexivity).
    apply slice_app; [rewrite !length_app; lia|assumption].
Qed.

Lemma u32le_little_endian (v : Z) :
  is_u32 v = true -> u32le v = little_endian_32 v.
Proof.
  unfold is_u32. intros H. apply andb_prop in H as [H1 H2].
  apply Z.leb_le in H1. apply Z.ltb_lt in H2.
  unfold u32le, little_endian_32, ToUint32.
  rewrite Z.mod_small by lia. reflexivity.
Qed.

(** ** The canonical encoding and its inverse *)

(** C1. For every header with valid field values (four unsigned 32-bit
    integers, two 32-byte hashes), [abbr] returns exactly 80 bytes: the
    little-endian version, the 32 bytes of [prevBlock], the 32 bytes of
    [merkleRoot], then the little-endian timestamp, bits and nonce; and
    [parseAbbr] over those bytes, on any receiver, consumes all 80 and
    leaves a header whose six consensus fields are those of the encoded
    header, the receiver's other properties being untouched. *)
Theorem abbr_parseAbbr_roundtrip {TX} (h : AbstractBlock TX) :
  valid_fields h = true ->
  exists data p m,
    abbr h = Ok data /\
    List.length data = 80%nat /\
    fromHex (prevBlock h) = Some p /\ List.length p = 32%nat /\
    fromHex (merkleRoot h) = Some m /\ List.length m = 32%nat /\
    data = little_endian_32 (version h) ++ p ++ m ++
           little_endian_32 (ts h) ++ little_endian_32 (bits h) ++
           little_endian_32 (nonce h) /\
    forall this : AbstractBlock TX,
    exists br this',
      parseAbbr (BufferReader_new data) this = (Ok br, this') /\
      br_offset br = 80%nat /\
      consensus this' = consensus h /\
      caches this' = caches this /\
      mutable this' = mutable this /\ txs this' = txs this.
Proof.
  intros Hv.
  destruct (abbr_valid h Hv) as (p & m & Hp & Lp & Tp & Hm & Lm & Tm & Ha).
  apply valid_fields_inv in Hv as (V1 & V2 & V3 & V4 & V5 & V6).
  destruct (slices_of_concat (u32le (version h)) p m (u32le (ts h))
              (u32le (bits h)) (u32le (nonce h)))
    as (Hlen & S0 & S1 & S2 & S3 & S4 & S5); try assumption;
    try apply length_u32le.
  exists (u32le (version h) ++ p ++ m ++
          u32le (ts h) ++ u32le (bits h) ++ u32le (nonce h)), p, m.
  repeat split; try assumption.
  - rewrite !u32le_little_endian by assumption. reflexivity.
  - intros this. eexists. eexists.
    rewrite parseAbbr_full by assumption.
    split; [reflexivity|]. split; [reflexivity|].
    rewrite S0, S1, S2, S3, S4, S5, Tp, Tm.
    rewrite !le_value_u32le_id by assumption.
    repeat split.
Qed.

(** ** The identity hash and its caches *)

Lemma hash_raw_cached {TX} hash256 (b : AbstractBlock TX) (h : bytes) :
  _hash b = Some h -> hash hash256 VUndefined b = (Ok (Raw h), b).
Proof.
  intros E. unfold hash. unfold_method. rewrite E. reflexivity.
Qed.

Lemma hash_raw_fresh {TX} hash256 (b : AbstractBlock TX) (data : bytes) :
  _hash b = None -> abbr b = Ok data ->
  hash hash256 VUndefined b =
  (Ok (Raw (hash256 data)),
   if mutable b then b else set__hash (Some (hash256 data)) b).
Proof.
  intros E Ha. unfold hash. unfold_method. rewrite E, Ha.
  destruct (mutable b); reflexivity.
Qed.

Lemma hash_throw {TX} hash256 enc (b : AbstractBlock TX) (e : exn) :
  _hash b = None -> abbr b = Throw e ->
  hash hash256 enc b = (Throw e, b).
Proof.
  intros E Ha. unfold hash. unfold_method. rewrite E, Ha. reflexivity.
Qed.

(** [hash('hex')] with the raw hash in cache. *)
Lemma hash_hex_cached {TX} hash256 (b : AbstractBlock TX) (h : bytes) :
  _hash b = Some h ->
  hash hash256 (VStr "hex") b =
  match _hhash b with
  | Some (String c s) => (Ok (Hex (String c s)), b)
  | _ => (Ok (Hex (toString_hex h)),
          if mutable b then b else set__hhash (Some (toString_hex h)) b)
  end.
Proof.
  intros E. unfold hash. unfold_method. rewrite E.
  cbn [is_hex String.eqb Ascii.eqb Bool.eqb].
  destruct (_hhash b) as [[|c s]|]; cbn [String.eqb];
    destruct (mutable b); reflexivity.
Qed.

(** [hash('hex')] with no raw hash in cache. *)
Lemma hash_hex_fresh {TX} hash256 (b : AbstractBlock TX) (data : bytes) :
  _hash b = None -> abbr b = Ok data ->
  hash hash256 (VStr "hex") b =
  let b1 := if mutable b then b else set__hash (Some (hash256 data)) b in
  match _hhash b with
  | Some (String c s) => (Ok (Hex (String c s)), b1)
  | _ => (Ok (Hex (toString_hex (hash256 data))),
          if mutable b then b1
          else set__hhash (Some (toString_hex (hash256 data))) b1)
  end.
Proof.
  intros E Ha. destruct b as [v p m t bi n tx mu h hh sz w].
  cbn [_hash _hhash mutable] in *. subst h.
  unfold hash. unfold_method. cbn [_hash]. rewrite Ha.
  destruct mu; destruct hh as [[|c s]|]; reflexivity.
Qed.

Lemma coherent_no_hex {TX} (b : AbstractBlock TX) :
  _hhash b = None -> cache_coherent b.
Proof. intros E s Hs. rewrite E in Hs. discriminate Hs. Qed.

Lemma coherent_set_hhash {TX} (b : AbstractBlock TX) (h : bytes) :
  _hash b = Some h -> cache_coherent (set__hhash (Some (toString_hex h)) b).
Proof.
  intros E s Hs. cbn [_hhash set__hhash] in Hs. inversion Hs. subst s.
  exists h. split; [exact E|reflexivity].
Qed.

Lemma coherent_no_raw {TX} (b : AbstractBlock TX) :
  cache_coherent b -> _hash b = None -> _hhash b = None.
Proof.
  intros Hc E. destruct (_hhash b) as [s|] eqn:Eh; [|reflexivity].
  destruct (Hc s Eh) as (h & Eh' & _). congruence.
Qed.

(** With a coherent cache pair and the raw hash [h] in cache, [hash('hex')]
    returns the rendering of [h] and keeps the pair coherent. *)
Lemma hash_hex_of_cached {TX} hash256 (b : AbstractBlock TX) (h : bytes) :
  cache_coherent b -> _hash b = Some h ->
  exists b', hash hash256 (VStr "hex") b = (Ok (Hex (toString_hex h)), b')
             /\ cache_coherent b' /\ _hash b' = Some h
             /\ consensus b' = consensus b.
Proof.
  intros Hc E. rewrite (hash_hex_cached hash256 b h E).
  destruct (_hhash b) as [[|c s]|] eqn:Eh.
  - destruct (mutable b); eexists; (split; [reflexivity|]);
      repeat split; try assumption.
    now apply coherent_set_hhash.
  - destruct (Hc _ Eh) as (h' & E' & Hs).
    assert (h' = h) by congruence. subst h'. rewrite Hs.
    eexists. split; [reflexivity|]. repeat split; assumption.
  - destruct (mutable b); eexists; (split; [reflexivity|]);
      repeat split; try assumption.
    now apply coherent_set_hhash.
Qed.


(** ** The injectors *)

Lemma well_formed_inv (o : jsval) :
  well_formed o = true ->
  truthy o = true /\ isNumber (get o "version") = true /\
  isString (get o "prevBlock") = true /\
  isString (get o "merkleRoot") = true /\
  isNumber (get o "ts") = true /\ isNumber (get o "bits") = true /\
  isNumber (get o "nonce") = true.
Proof. unfold well_formed. rewrite !andb_true_iff. tauto. Qed.

Lemma parseOptions_ok {TX} (o : jsval) (this : AbstractBlock TX) :
  well_formed o = true ->
  parseOptions o this =
  (Ok tt,
   let b :=
     set_nonce (num_of (get o "nonce"))
       (set_bits (num_of (get o "bits"))
          (set_ts (num_of (get o "ts"))
             (set_merkleRoot (str_of (get o "merkleRoot"))
                (set_prevBlock (str_of (get o "prevBlock"))
                   (set_version (num_of (get o "version")) this))))) in
   if not_nullish (get o "mutable")
   then set_mutable (truthy (get o "mutable")) b else b).
Proof.
  intros H. apply well_formed_inv in H as (H0 & H1 & H2 & H3 & H4 & H5 & H6).
  unfold parseOptions. unfold_method.
  rewrite H0, H1, H2, H3, H4, H5, H6. cbv zeta.
  destruct (not_nullish (get o "mutable")); reflexivity.
Qed.

Lemma parseJSON_ok {TX} (o : jsval) (this : AbstractBlock TX) :
  well_formed o = true ->
  parseJSON o this =
  (Ok tt,
   set_nonce (num_of (get o "nonce"))
     (set_bits (num_of (get o "bits"))
        (set_ts (num_of (get o "ts"))
           (set_merkleRoot (revHex (str_of (get o "merkleRoot")))
              (set_prevBlock (revHex (str_of (get o "prevBlock")))
                 (set_version (num_of (get o "version")) this)))))).
Proof.
  intros H. apply well_formed_inv in H as (H0 & H1 & H2 & H3 & H4 & H5 & H6).
  unfold parseJSON. unfold_method.
  rewrite H0, H1, H2, H3, H4, H5, H6. reflexivity.
Qed.

Lemma parseOptions_bad {TX} (o : jsval) (this : AbstractBlock TX) :
  well_formed o = false ->
  exists e, parseOptions o this = (Throw e, this) /\
    kind_of e = if truthy o then TypeMismatch else InvalidData.
Proof.
  intros H. unfold parseOptions. unfold_method.
  destruct (truthy o) eqn:H0; [|eexists; split; reflexivity].
  do 6 first_failed_check.
  unfold well_formed in H. rewrite H0 in H.
  repeat match goal with E : _ = true |- _ => rewrite E in H; clear E end.
  discriminate H.
Qed.

Lemma parseJSON_bad {TX} (o : jsval) (this : AbstractBlock TX) :
  well_formed o = false ->
  exists e, parseJSON o this = (Throw e, this) /\
    kind_of e = if truthy o then TypeMismatch else InvalidData.
Proof.
  intros H. unfold parseJSON. unfold_method.
  destruct (truthy o) eqn:H0; [|eexists; split; reflexivity].
  do 6 first_failed_check.
  unfold well_formed in H. rewrite H0 in H.
  repeat match goal with E : _ = true |- _ => rewrite E in H; clear E end.
  discriminate H.
Qed.

(** The injectors leave the caches and the transaction list as they were,
    whatever the outcome. *)
Lemma parseOptions_frame {TX} (o : jsval) (this : AbstractBlock TX) r this' :
  parseOptions o this = (r, this') ->
  caches this' = caches this /\ txs this' = txs this.
Proof.
  intros H. destruct (well_formed o) eqn:W.
  - rewrite (parseOptions_ok o this W) in H. inversion H. cbv zeta.
    destruct (not_nullish (get o "mutable")); split; reflexivity.
  - destruct (parseOptions_bad o this W) as (e & He & _).
    rewrite He in H. inversion H. split; reflexivity.
Qed.

Lemma parseJSON_frame {TX} (o : jsval) (this : AbstractBlock TX) r this' :
  parseJSON o this = (r, this') ->
  caches this' = caches this /\ txs this' = txs this /\
  mutable this' = mutable this.
Proof.
  intros H. destruct (well_formed o) eqn:W.
  - rewrite (parseJSON_ok o this W) in H. inversion H.
    repeat split; reflexivity.
  - destruct (parseJSON_bad o this W) as (e & He & _).
    rewrite He in H. inversion H. repeat split; reflexivity.
Qed.

Lemma parseAbbr_frame {TX} (br : BufferReader) (this : AbstractBlock TX)
    r this' :
  parseAbbr br this = (r, this') ->
  caches this' = caches this /\ txs this' = txs this /\
  mutable this' = mutable this.
Proof.
  unfold parseAbbr. unfold_method.
  destruct (readU32 br) as [[v1 br1]|e1];
    [|intros H; inversion H; repeat split; reflexivity].
  cbn [fst snd].
  destruct (readHash_hex br1) as [[v2 br2]|e2];
    [|intros H; inversion H; repeat split; reflexivity].
  cbn [fst snd].
  destruct (readHash_hex br2) as [[v3 br3]|e3];
    [|intros H; inversion H; repeat split; reflexivity].
  cbn [fst snd].
  destruct (readU32 br3) as [[v4 br4]|e4];
    [|intros H; inversion H; repeat split; reflexivity].
  cbn [fst snd].
  destruct (readU32 br4) as [[v5 br5]|e5];
    [|intros H; inversion H; repeat split; reflexivity].
  cbn [fst snd].
  destruct (readU32 br5) as [[v6 br6]|e6];
    intros H; inversion H; repeat split; reflexivity.
Qed.

Lemma refresh_clears {TX} tx_refresh (all : jsval) (b : AbstractBlock TX) :
  exists b', refresh tx_refresh all b = (Ok tt, b') /\
    caches b' = (None, None, -1, -1) /\
    consensus b' = consensus b /\ mutable b' = mutable b.
Proof.
  unfold refresh, _refresh. unfold_method.
  destruct (truthy all); cbn [negb].
  - cbn [txs set__witness set__size set__hhash set__hash].
    destruct (txs b); eexists; (split; [reflexivity|repeat split]).
  - eexists. split; [reflexivity|repeat split].
Qed.

Lemma abbr_valid_length {TX} (h : AbstractBlock TX) :
  valid_fields h = true ->
  exists data, abbr h = Ok data /\ List.length data = 80%nat.
Proof.
  intros Hv.
  destruct (abbr_valid h Hv) as (p & m & _ & Lp & _ & _ & Lm & _ & Ha).
  eexists. split; [exact Ha|].
  rewrite !length_app, Lp, Lm, !length_u32le. reflexivity.
Qed.

(** The encoding of the header decoded from 80 bytes is those bytes. *)
Lemma abbr_parseAbbr {TX} (data : bytes) (this : AbstractBlock TX) :
  List.length data = 80%nat ->
  abbr (snd (parseAbbr (BufferReader_new data) this)) = Ok data.
Proof.
  intros Hlen. rewrite parseAbbr_full by assumption. cbn [snd].
  erewrite abbr_bytes.
  - cbn [version ts bits nonce set_nonce set_bits set_ts set_merkleRoot
         set_prevBlock set_version].
    rewrite !u32le_le_value_4 by (apply length_slice; lia).
    rewrite slices_80 by assumption. reflexivity.
  - cbn [prevBlock set_nonce set_bits set_ts set_merkleRoot set_prevBlock].
    rewrite length_toString_hex, length_slice by lia. reflexivity.
  - cbn [merkleRoot set_nonce set_bits set_ts set_merkleRoot].
    rewrite length_toString_hex, length_slice by lia. reflexivity.
  - apply fromHex_toString_hex.
  - apply fromHex_toString_hex.
Qed.

(** ** Proof of work and verification *)

(** C3. For every header with valid fields, [powHash()] is the scrypt digest
    of the 80-byte canonical encoding, passed as password and as salt, with
    N = 1024, r = 1, p = 1 and 32 bytes of output; every header with the same
    six consensus fields, whatever its flag and its caches, has the same
    proof-of-work hash. *)
Theorem powHash_is_scrypt_of_abbr {TX} scrypt (h : AbstractBlock TX) :
  valid_fields h = true ->
  exists data,
    abbr h = Ok data /\ List.length data = 80%nat /\
    powHash scrypt h = Ok (scrypt data data 1024 1 1 32) /\
    forall h' : AbstractBlock TX,
      consensus h' = consensus h ->
      powHash scrypt h' = Ok (scrypt data data 1024 1 1 32).
Proof.
  intros Hv. destruct (abbr_valid_length h Hv) as (data & Ha & Hlen).
  exists data. split; [assumption|]. split; [assumption|]. split.
  - unfold powHash. rewrite Ha. reflexivity.
  - intros h' Hc. unfold powHash.
    rewrite (abbr_consensus h h' Hc), Ha. reflexivity.
Qed.

(** C4. For every block variant: [verify()] returns true exactly when
    [verifyPOW()] returns true and [verifyBody()] returns true; the
    proof-of-work check runs first, and when it returns false (or throws)
    [verify()] returns false (or throws) with the object in the state it had,
    whatever the body check would do: the body check is not invoked. *)
Theorem verify_pow_then_body {TX} scrypt consensus_verifyPOW
    {S} `{BlockVariant TX S} (this : S) :
  (forall this',
     verify scrypt consensus_verifyPOW this = (Ok true, this') <->
     verifyPOW scrypt consensus_verifyPOW (core this) = Ok true /\
     verifyBody this = (Ok true, this')) /\
  (verifyPOW scrypt consensus_verifyPOW (core this) = Ok false ->
   verify scrypt consensus_verifyPOW this = (Ok false, this)) /\
  (forall e, verifyPOW scrypt consensus_verifyPOW (core this) = Throw e ->
   verify scrypt consensus_verifyPOW this = (Throw e, this)) /\
  (verifyPOW scrypt consensus_verifyPOW (core this) = Ok true ->
   verify scrypt consensus_verifyPOW this = verifyBody this).
Proof.
  unfold verify.
  destruct (verifyPOW scrypt consensus_verifyPOW (core this))
    as [[|]|e] eqn:Hp.
  - destruct (verifyBody this) as [[[|]|e] this1] eqn:Hb;
      (split; [intros this'; split;
               [intros H1; inversion H1; subst; split; reflexivity
               |intros [_ H1]; inversion H1; subst; reflexivity]|]);
      (split; [intros H1; discriminate H1|]);
      (split; [intros e' H1; discriminate H1|]); reflexivity.
  - split; [intros this'; split;
            [intros H1; discriminate H1|intros [H1 _]; discriminate H1]|].
    split; [reflexivity|]. split; [intros e H1|intros H1]; discriminate H1.
  - split; [intros this'; split;
            [intros H1; discriminate H1|intros [H1 _]; discriminate H1]|].
    split; [intros H1; discriminate H1|].
    split; [intros e' H1; inversion H1; reflexivity
           |intros H1; discriminate H1].
Qed.

(** On the abstract class itself a passing proof of work leads to the
    'Abstract method.' error, not to a verdict. *)
Lemma verify_abstract_throws {TX} scrypt consensus_verifyPOW
    (b : AbstractBlock TX) :
  verifyPOW scrypt consensus_verifyPOW b = Ok true ->
  @verify TX scrypt consensus_verifyPOW _ (abstract_variant TX) b
  = (Throw (Error "Abstract method."), b) /\
  kind_of (Error "Abstract method.") = NotImplemented.
Proof.
  intros H. unfold verify. cbn [core abstract_variant]. rewrite H.
  split; reflexivity.
Qed.

(** ** Cache invalidation *)

(** C5 (as amended). [parseOptions], [parseJSON] and [parseAbbr] assign the
    consensus fields (from the object that passes the checks, with the hash
    strings reversed by [parseJSON]; from the 80 bytes at their fixed
    offsets) and leave the four caches as they were, whatever the outcome;
    a fresh header has no cache, so none can go stale by an injector; the
    caches are invalidated by [refresh()], which clears all four
    unconditionally and keeps the consensus fields, and [hash()] called
    after [refresh()] recomputes from the current consensus fields. *)
Theorem injectors_keep_caches_refresh_clears {TX} tx_refresh hash256
    (b : AbstractBlock TX) :
  (forall o r b', parseOptions o b = (r, b') -> caches b' = caches b) /\
  (forall o r b', parseJSON o b = (r, b') -> caches b' = caches b) /\
  (forall br r b', parseAbbr br b = (r, b') -> caches b' = caches b) /\
  (forall o, well_formed o = true ->
     exists b', parseOptions o b = (Ok tt, b') /\
       consensus b' =
         (num_of (get o "version"), str_of (get o "prevBlock"),
          str_of (get o "merkleRoot"), num_of (get o "ts"),
          num_of (get o "bits"), num_of (get o "nonce"))) /\
  (forall o, well_formed o = true ->
     exists b', parseJSON o b = (Ok tt, b') /\
       consensus b' =
         (num_of (get o "version"), revHex (str_of (get o "prevBlock")),
          revHex (str_of (get o "merkleRoot")), num_of (get o "ts"),
          num_of (get o "bits"), num_of (get o "nonce"))) /\
  (forall data, List.length data = 80%nat ->
     exists br b', parseAbbr (BufferReader_new data) b = (Ok br, b') /\
       consensus b' =
         (le_value (firstn 4 data),
          toString_hex (firstn 32 (skipn 4 data)),
          toString_hex (firstn 32 (skipn 36 data)),
          le_value (firstn 4 (skipn 68 data)),
          le_value (firstn 4 (skipn 72 data)),
          le_value (firstn 4 (skipn 76 data)))) /\
  (caches (@AbstractBlock_new TX) = (None, None, -1, -1) /\
   forall o br (r1 r2 : result unit) (r3 : result BufferReader)
          (b1 b2 b3 : AbstractBlock TX),
     parseOptions o AbstractBlock_new = (r1, b1) ->
     parseJSON o AbstractBlock_new = (r2, b2) ->
     parseAbbr br AbstractBlock_new = (r3, b3) ->
     caches b1 = (None, None, -1, -1) /\
     caches b2 = (None, None, -1, -1) /\
     caches b3 = (None, None, -1, -1)) /\
  (forall all, exists b',
     refresh tx_refresh all b = (Ok tt, b') /\
     caches b' = (None, None, -1, -1) /\
     consensus b' = consensus b /\
     forall data, abbr b = Ok data ->
       exists b'', hash hash256 VUndefined b' = (Ok (Raw (hash256 data)), b'')).
Proof.
  split; [|split; [|split; [|split; [|split; [|split; [|split]]]]]].
  - intros o r b' H. apply (parseOptions_frame o b r b' H).
  - intros o r b' H. apply (parseJSON_frame o b r b' H).
  - intros br r b' H. apply (parseAbbr_frame br b r b' H).
  - intros o Hw. rewrite (parseOptions_ok o b Hw). cbv zeta.
    eexists. split; [reflexivity|].
    destruct (not_nullish (get o "mutable")); reflexivity.
  - intros o Hw. rewrite (parseJSON_ok o b Hw).
    eexists. split; reflexivity.
  - intros data Hlen. rewrite (parseAbbr_full data b Hlen).
    eexists. eexists. split; reflexivity.
  - split; [reflexivity|].
    intros o br r1 r2 r3 b1 b2 b3 H1 H2 H3.
    destruct (parseOptions_frame o _ r1 b1 H1) as [C1 _].
    destruct (parseJSON_frame o _ r2 b2 H2) as [C2 _].
    destruct (parseAbbr_frame br _ r3 b3 H3) as [C3 _].
    rewrite C1, C2, C3. repeat split.
  - intros all.
    destruct (refresh_clears tx_refresh all b) as (b' & Hr & Hc & Hf & _).
    exists b'. split; [assumption|]. split; [assumption|].
    split; [assumption|]. intros data Ha.
    eexists. apply hash_raw_fresh.
    + unfold caches in Hc. congruence.
    + rewrite (abbr_consensus b b' Hf). exact Ha.
Qed.

(** ** Rejection of malformed input *)

Lemma parseOptions_absent {TX} (o : jsval) (this : AbstractBlock TX) :
  truthy o = false ->
  parseOptions o this
  = (Throw (AssertionError (Some "Block data is required.")), this) /\
  parseJSON o this
  = (Throw (AssertionError (Some "Block data is required.")), this).
Proof.
  intros H. unfold parseOptions, parseJSON. unfold_method. rewrite H.
  split; reflexivity.
Qed.

Ltac next_check :=
  match goal with
  | |- context [if ?c then _ else _] => destruct c eqn:?; [|reflexivity]
  end.

Lemma parseOptions_wrong_shape {TX} (o : jsval) (this : AbstractBlock TX) :
  truthy o = true -> well_formed o = false ->
  parseOptions o this = (Throw (AssertionError None), this).
Proof.
  intros H0 H. unfold parseOptions. unfold_method. rewrite H0.
  do 6 next_check.
  unfold well_formed in H. rewrite H0 in H.
  repeat match goal with E : _ = true |- _ => rewrite E in H; clear E end.
  discriminate H.
Qed.

Lemma parseJSON_wrong_shape {TX} (o : jsval) (this : AbstractBlock TX) :
  truthy o = true -> well_formed o = false ->
  parseJSON o this = (Throw (AssertionError None), this).
Proof.
  intros H0 H. unfold parseJSON. unfold_method. rewrite H0.
  do 6 next_check.
  unfold well_formed in H. rewrite H0 in H.
  repeat match goal with E : _ = true |- _ => rewrite E in H; clear E end.
  discriminate H.
Qed.

(** The receiver when [parseAbbr] throws: the fields that fit into the input
    have been assigned, the others are as before. *)
Lemma parseAbbr_short_state {TX} (data : bytes) (this : AbstractBlock TX) :
  (List.length data < 80)%nat ->
  fst (parseAbbr (BufferReader_new data) this) = Throw OutOfBounds /\
  version (snd (parseAbbr (BufferReader_new data) this)) =
    (if Nat.leb 4 (List.length data) then le_value (firstn 4 data)
     else version this) /\
  prevBlock (snd (parseAbbr (BufferReader_new data) this)) =
    (if Nat.leb 36 (List.length data)
     then toString_hex (firstn 32 (skipn 4 data)) else prevBlock this) /\
  merkleRoot (snd (parseAbbr (BufferReader_new data) this)) =
    (if Nat.leb 68 (List.length data)
     then toString_hex (firstn 32 (skipn 36 data)) else merkleRoot this) /\
  ts (snd (parseAbbr (BufferReader_new data) this)) =
    (if Nat.leb 72 (List.length data)
     then le_value (firstn 4 (skipn 68 data)) else ts this) /\
  bits (snd (parseAbbr (BufferReader_new data) this)) =
    (if Nat.leb 76 (List.length data)
     then le_value (firstn 4 (skipn 72 data)) else bits this) /\
  nonce (snd (parseAbbr (BufferReader_new data) this)) = nonce this /\
  ((List.length data < 4)%nat ->
   snd (parseAbbr (BufferReader_new data) this) = this).
Proof.
  intros Hlen.
  unfold parseAbbr, BufferReader_new. unfold_method.
  destruct (le_lt_dec 4 (List.length data)) as [H1|H1];
    [rewrite readU32_ok by lia; cbn [fst snd Nat.add]
    |rewrite readU32_short by lia; cbn [fst snd]; settle_leb;
     repeat split; reflexivity].
  destruct (le_lt_dec 36 (List.length data)) as [H2|H2];
    [rewrite readHash_hex_ok by lia; cbn [fst snd Nat.add]
    |rewrite readHash_hex_short by lia; cbn [fst snd]; settle_leb;
     repeat split; try reflexivity; intros; lia].
  destruct (le_lt_dec 68 (List.length data)) as [H3|H3];
    [rewrite readHash_hex_ok by lia; cbn [fst snd Nat.add]
    |rewrite readHash_hex_short by lia; cbn [fst snd]; settle_leb;
     repeat split; try reflexivity; intros; lia].
  destruct (le_lt_dec 72 (List.length data)) as [H4|H4];
    [rewrite readU32_ok by lia; cbn [fst snd Nat.add]
    |rewrite readU32_short by lia; cbn [fst snd]; settle_leb;
     repeat split; try reflexivity; intros; lia].
  destruct (le_lt_dec 76 (List.length data)) as [H5|H5];
    [rewrite readU32_ok by lia; cbn [fst snd Nat.add]
    |rewrite readU32_short by lia; cbn [fst snd]; settle_leb;
     repeat split; try reflexivity; intros; lia].
  rewrite readU32_short by lia. cbn [fst snd]. settle_leb.
  repeat split; try reflexivity; intros; lia.
Qed.

(** C7 (as amended). An options (or json) object that fails a check makes
    [parseOptions] (and [parseJSON]) throw before any assignment, the
    receiver being untouched: the assertion with the message 'Block data is
    required.' (the absent-input error) when the object itself is absent
    (falsy), the bare assertion (the wrong-shape error) when a numeric field
    is not a number or a hash field is not a string. Fewer than 80 bytes
    make [parseAbbr] throw the reader's error (the truncation error) and
    return no header; but [parseAbbr] assigns each field as it is read, so
    at the throw the receiver has been overwritten in exactly the fields
    that fit into the input (the version from 4 bytes on, [prevBlock] from
    36, [merkleRoot] from 68, the timestamp from 72, the bits from 76, never
    the nonce), its caches, flag and transaction list being untouched, and
    the whole receiver only when fewer than 4 bytes were given. *)
Theorem construction_rejects_malformed {TX} (this : AbstractBlock TX)
    (options : jsval) (data : bytes) :
  well_formed options = false ->
  (List.length data < 80)%nat ->
  let e := AssertionError (if truthy options then None
                           else Some "Block data is required.") in
  let this' := snd (parseAbbr (BufferReader_new data) this) in
  parseOptions options this = (Throw e, this) /\
  parseJSON options this = (Throw e, this) /\
  kind_of e = (if truthy options then TypeMismatch else InvalidData) /\
  parseAbbr (BufferReader_new data) this = (Throw OutOfBounds, this') /\
  kind_of OutOfBounds = TruncatedInput /\
  version this' =
    (if Nat.leb 4 (List.length data) then le_value (firstn 4 data)
     else version this) /\
  prevBlock this' =
    (if Nat.leb 36 (List.length data)
     then toString_hex (firstn 32 (skipn 4 data)) else prevBlock this) /\
  merkleRoot this' =
    (if Nat.leb 68 (List.length data)
     then toString_hex (firstn 32 (skipn 36 data)) else merkleRoot this) /\
  ts this' =
    (if Nat.leb 72 (List.length data)
     then le_value (firstn 4 (skipn 68 data)) else ts this) /\
  bits this' =
    (if Nat.leb 76 (List.length data)
     then le_value (firstn 4 (skipn 72 data)) else bits this) /\
  nonce this' = nonce this /\
  caches this' = caches this /\ mutable this' = mutable this /\
  txs this' = txs this /\
  ((List.length data < 4)%nat -> this' = this).
Proof.
  intros Hw Hlen e this'. subst e this'.
  destruct (parseAbbr_short_state data this Hlen)
    as (S0 & S1 & S2 & S3 & S4 & S5 & S6 & S7).
  destruct (parseAbbr_frame (BufferReader_new data) this _ _
              (surjective_pairing _)) as (F1 & F2 & F3).
  assert (Hpair : parseAbbr (BufferReader_new data) this
                  = (Throw OutOfBounds,
                     snd (parseAbbr (BufferReader_new data) this))).
  { rewrite <- S0. apply surjective_pairing. }
  destruct (truthy options) eqn:Ht.
  - rewrite (parseOptions_wrong_shape options this Ht Hw),
      (parseJSON_wrong_shape options this Ht Hw).
    repeat (split; [first [reflexivity | assumption]|]). assumption.
  - destruct (parseOptions_absent options this Ht) as [Ho Hj].
    rewrite Ho, Hj.
    repeat (split; [first [reflexivity | assumption]|]). assumption.
Qed.

(** ** Display byte order *)

(** C8. [parseJSON] stores the byte-order reversal of the [prevBlock] and
    [merkleRoot] strings it is given; [rhash()] is [revHex] applied to what
    [hash('hex')] returns; and for the header decoded from any 80 wire bytes,
    [rhash()] is the hexadecimal rendering of the identity hash with its
    bytes in reverse order. *)
Theorem rhash_reverses_hash_hex {TX} hash256 (data : bytes) :
  List.length data = 80%nat ->
  (exists br h h',
     parseAbbr (BufferReader_new data) (@AbstractBlock_new TX) = (Ok br, h) /\
     hash hash256 VUndefined h
       = (Ok (Raw (hash256 data)), set__hash (Some (hash256 data)) h) /\
     hash hash256 (VStr "hex") h
       = (Ok (Hex (toString_hex (hash256 data))), h') /\
     rhash hash256 h = (Ok (revHex (toString_hex (hash256 data))), h') /\
     revHex (toString_hex (hash256 data))
       = toString_hex (rev (hash256 data))) /\
  (forall b : AbstractBlock TX,
     rhash hash256 b =
     match hash hash256 (VStr "hex") b with
     | (Ok (Hex s), b') => (Ok (revHex s), b')
     | (Ok (Raw _), b') => (Throw (AssertionError None), b')
     | (Throw e, b') => (Throw e, b')
     end) /\
  (forall (json : jsval) (this : AbstractBlock TX),
     well_formed json = true ->
     exists this', parseJSON json this = (Ok tt, this') /\
       prevBlock this' = revHex (str_of (get json "prevBlock")) /\
       merkleRoot this' = revHex (str_of (get json "merkleRoot"))) /\
  (forall b : bytes, revHex (toString_hex b) = toString_hex (rev b)).
Proof.
  intros Hlen.
  assert (Hr : forall b : AbstractBlock TX,
     rhash hash256 b =
     match hash hash256 (VStr "hex") b with
     | (Ok (Hex s), b') => (Ok (revHex s), b')
     | (Ok (Raw _), b') => (Throw (AssertionError None), b')
     | (Throw e, b') => (Throw e, b')
     end).
  { intros b. unfold rhash. unfold_method.
    destruct (hash hash256 (VStr "hex") b) as [[[raw|s]|e] b']; reflexivity. }
  split; [|split; [exact Hr|split]].
  - pose proof (abbr_parseAbbr data (@AbstractBlock_new TX) Hlen) as Ha.
    rewrite parseAbbr_full in Ha |- * by assumption. cbn [snd] in Ha.
    match type of Ha with abbr ?x = _ => set (h := x) in * end.
    assert (E : _hash h = None) by reflexivity.
    exists {| br_data := data; br_offset := 80 |}, h.
    eexists. split; [reflexivity|].
    split; [|split; [|split]].
    + rewrite (hash_raw_fresh hash256 h data E Ha). reflexivity.
    + rewrite (hash_hex_fresh hash256 h data E Ha). reflexivity.
    + rewrite Hr, (hash_hex_fresh hash256 h data E Ha). reflexivity.
    + apply revHex_toString_hex.
  - intros json this Hw. rewrite (parseJSON_ok json this Hw).
    eexists. split; [reflexivity|]. split; reflexivity.
  - apply revHex_toString_hex.
Qed.

(** ** The version field *)

Lemma version_new {TX} : version (@AbstractBlock_new TX) = 1.
Proof. reflexivity. Qed.

(** Whatever [parseAbbr] reads as the version is an unsigned 32-bit
    integer. *)
Lemma parseAbbr_version_u32 {TX} (data : bytes) (this : AbstractBlock TX)
    br this' :
  parseAbbr (BufferReader_new data) this = (Ok br, this') ->
  is_u32 (version this') = true.
Proof.
  intros H.
  destruct (le_lt_dec 80 (List.length data)) as [Hl|Hl].
  - revert H. unfold parseAbbr, BufferReader_new. unfold_method.
    rewrite readU32_ok by lia. cbn [fst snd Nat.add].
    rewrite readHash_hex_ok by lia. cbn [fst snd Nat.add].
    rewrite readHash_hex_ok by lia. cbn [fst snd Nat.add].
    rewrite readU32_ok by lia. cbn [fst snd Nat.add].
    rewrite readU32_ok by lia. cbn [fst snd Nat.add].
    rewrite readU32_ok by lia. cbn [fst snd Nat.add].
    intros H. apply (f_equal snd) in H. cbn [snd] in H. subst this'.
    cbn [version set_nonce set_bits set_ts set_merkleRoot set_prevBlock
         set_version].
    apply is_u32_le_value_4. apply length_slice. lia.
  - destruct (parseAbbr_short data this Hl) as (b' & Hs).
    rewrite Hs in H. discriminate H.
Qed.

(** C9. The options object whose version is -1 passes every check of
    [parseOptions], and the header it produces has version -1: the version
    is not an unsigned 32-bit integer on this construction path. The same
    object passes [parseJSON] with the same version. *)
Theorem parseOptions_accepts_negative_version :
  exists b b' : AbstractBlock unit,
    parseOptions options_negative_version AbstractBlock_new = (Ok tt, b) /\
    version b = -1 /\ is_u32 (version b) = false /\
    parseJSON options_negative_version AbstractBlock_new = (Ok tt, b') /\
    version b' = -1.
Proof.
  eexists. eexists. split; [reflexivity|]. split; [reflexivity|].
  split; [reflexivity|]. split; reflexivity.
Qed.

(** ** The mutable flag *)

(** C10. For every well-formed json object, whether or not it carries a
    [mutable] property, [parseJSON] succeeds and leaves the receiver's
    [mutable] flag at its prior value ([false] on a fresh header);
    [parseOptions] on the same object sets the flag to the truth value of the
    property when the property is neither [undefined] nor [null], and leaves
    it alone otherwise. *)
Theorem parseJSON_keeps_mutable {TX} (json : jsval)
    (this : AbstractBlock TX) :
  well_formed json = true ->
  (exists this', parseJSON json this = (Ok tt, this') /\
     mutable this' = mutable this) /\
  (exists this' : AbstractBlock TX,
     parseJSON json AbstractBlock_new = (Ok tt, this') /\
     mutable this' = false) /\
  (exists this', parseOptions json this = (Ok tt, this') /\
     mutable this' =
     if not_nullish (get json "mutable")
     then truthy (get json "mutable") else mutable this).
Proof.
  intros Hw. split; [|split].
  - rewrite (parseJSON_ok json this Hw). eexists. split; reflexivity.
  - rewrite (parseJSON_ok json _ Hw). eexists. split; reflexivity.
  - rewrite (parseOptions_ok json this Hw). cbv zeta.
    destruct (not_nullish (get json "mutable"));
      eexists; split; reflexivity.
Qed.

(** ** Caching and the mutable flag *)

Lemma is_hex_inv (enc : jsval) : is_hex enc = true -> enc = VStr "hex".
Proof.
  destruct enc; cbn [is_hex]; try discriminate.
  intros H. apply String.eqb_eq in H. congruence.
Qed.

Lemma hash_not_hex {TX} hash256 enc (b : AbstractBlock TX) :
  is_hex enc = false -> hash hash256 enc b = hash hash256 VUndefined b.
Proof. intros H. unfold hash. rewrite H. reflexivity. Qed.

(** Valid headers with the same encoding have the same consensus fields. *)
Lemma abbr_inj {TX} (h h' : AbstractBlock TX) (data : bytes) :
  valid_fields h = true -> valid_fields h' = true ->
  abbr h = Ok data -> abbr h' = Ok data -> consensus h = consensus h'.
Proof.
  intros Hv Hv' Ha Ha'.
  destruct (abbr_valid h Hv) as (p & m & _ & Lp & Tp & _ & Lm & Tm & Hb).
  destruct (abbr_valid h' Hv')
    as (p' & m' & _ & Lp' & Tp' & _ & Lm' & Tm' & Hb').
  apply valid_fields_inv in Hv as (V1 & _ & _ & V4 & V5 & V6).
  apply valid_fields_inv in Hv' as (V1' & _ & _ & V4' & V5' & V6').
  assert (Hd : u32le (version h) ++ p ++ m ++ u32le (ts h) ++
               u32le (bits h) ++ u32le (nonce h) = data) by congruence.
  assert (Hd' : u32le (version h') ++ p' ++ m' ++ u32le (ts h') ++
                u32le (bits h') ++ u32le (nonce h') = data) by congruence.
  destruct (slices_of_concat (u32le (version h)) p m (u32le (ts h))
              (u32le (bits h)) (u32le (nonce h)))
    as (_ & S0 & S1 & S2 & S3 & S4 & S5); try assumption;
    try apply length_u32le.
  destruct (slices_of_concat (u32le (version h')) p' m' (u32le (ts h'))
              (u32le (bits h')) (u32le (nonce h')))
    as (_ & S0' & S1' & S2' & S3' & S4' & S5'); try assumption;
    try apply length_u32le.
  rewrite Hd in S0, S1, S2, S3, S4, S5.
  rewrite Hd' in S0', S1', S2', S3', S4', S5'.
  assert (E0 : le_value (u32le (version h)) = le_value (u32le (version h')))
    by congruence.
  assert (E3 : le_value (u32le (ts h)) = le_value (u32le (ts h')))
    by congruence.
  assert (E4 : le_value (u32le (bits h)) = le_value (u32le (bits h')))
    by congruence.
  assert (E5 : le_value (u32le (nonce h)) = le_value (u32le (nonce h')))
    by congruence.
  rewrite !le_value_u32le_id in E0, E3, E4, E5 by assumption.
  unfold consensus. rewrite <- Tp, <- Tm, <- Tp', <- Tm'. congruence.
Qed.

Lemma caches_current_facts {TX} hash256 (b : AbstractBlock TX) data :
  caches_current hash256 b -> abbr b = Ok data ->
  (forall h, _hash b = Some h -> h = hash256 data) /\
  (forall s, _hhash b = Some s -> s = toString_hex (hash256 data)).
Proof.
  intros [[E1 E2]|[Hr Hh]] Ha; split; intros x Hx; try congruence.
  - destruct (Hr x Hx) as (d & Hd & ->). congruence.
  - destruct (Hh x Hx) as (d & Hd & ->). congruence.
Qed.

Lemma caches_current_intro {TX} hash256 (b : AbstractBlock TX) data :
  abbr b = Ok data ->
  (forall h, _hash b = Some h -> h = hash256 data) ->
  (forall s, _hhash b = Some s -> s = toString_hex (hash256 data)) ->
  caches_current hash256 b.
Proof.
  intros Ha Hr Hh. right. split; intros x Hx; exists data;
    (split; [exact Ha|auto]).
Qed.

(** A second [hash('hex')] with both caches present changes nothing. *)
Lemma hash_hex_again {TX} hash256 (b : AbstractBlock TX) (h : bytes) :
  mutable b = false -> _hash b = Some h ->
  _hhash b = Some (toString_hex h) ->
  hash hash256 (VStr "hex") b = (Ok (Hex (toString_hex h)), b).
Proof.
  intros Hm E Eh. rewrite (hash_hex_cached hash256 b h E), Eh, Hm.
  destruct (toString_hex h) as [|c s] eqn:Et; [|reflexivity].
  f_equal. destruct b. cbn [_hhash] in Eh. subst. reflexivity.
Qed.

(** One [hash(enc)] on an immutable header whose caches are current. *)
Lemma hash_immutable {TX} hash256 enc (b : AbstractBlock TX) data :
  mutable b = false -> caches_current hash256 b -> abbr b = Ok data ->
  exists b1,
    hash hash256 enc b =
      (Ok (if is_hex enc then Hex (toString_hex (hash256 data))
           else Raw (hash256 data)), b1) /\
    mutable b1 = false /\ consensus b1 = consensus b /\
    caches_current hash256 b1 /\ _hash b1 = Some (hash256 data) /\
    forall hash256',
      hash hash256' enc b1 =
      (Ok (if is_hex enc then Hex (toString_hex (hash256 data))
           else Raw (hash256 data)), b1).
Proof.
  intros Hm Hc Ha.
  destruct (caches_current_facts hash256 b data Hc Ha) as [Hr Hh].
  assert (Hfin : forall b1 : AbstractBlock TX,
            mutable b1 = false -> consensus b1 = consensus b ->
            _hash b1 = Some (hash256 data) ->
            (_hhash b1 = _hhash b \/
             _hhash b1 = Some (toString_hex (hash256 data))) ->
            mutable b1 = false /\ consensus b1 = consensus b /\
            caches_current hash256 b1 /\ _hash b1 = Some (hash256 data)).
  { intros b1 H1 H2 H3 H4. repeat split; try assumption.
    apply (caches_current_intro hash256 b1 data).
    - rewrite (abbr_consensus b b1 H2). exact Ha.
    - intros h Hx. congruence.
    - intros s Hx. destruct H4 as [H4|H4]; [|congruence].
      apply Hh. congruence. }
  destruct (is_hex enc) eqn:Ee.
  - apply is_hex_inv in Ee. subst enc.
    destruct (_hash b) as [h|] eqn:E.
    + rewrite (Hr h eq_refl) in E. clear Hr.
      rewrite (hash_hex_cached hash256 b _ E).
      destruct (_hhash b) as [[|c s]|] eqn:Eh.
      * rewrite Hm. eexists. split; [reflexivity|].
        rewrite <- !and_assoc. split.
        -- rewrite !and_assoc. apply Hfin; try reflexivity;
             try assumption. right. reflexivity.
        -- intros hash256'. apply hash_hex_again; try assumption.
           reflexivity.
      * pose proof (Hh _ eq_refl) as Hs. rewrite Hs in Eh |- *.
        exists b. split; [reflexivity|].
        rewrite <- !and_assoc. split.
        -- rewrite !and_assoc. apply Hfin; try reflexivity;
             try assumption. right. assumption.
        -- intros hash256'. apply hash_hex_again; assumption.
      * rewrite Hm. eexists. split; [reflexivity|].
        rewrite <- !and_assoc. split.
        -- rewrite !and_assoc. apply Hfin; try reflexivity;
             try assumption. right. reflexivity.
        -- intros hash256'. apply hash_hex_again; try assumption.
           reflexivity.
    + rewrite (hash_hex_fresh hash256 b data E Ha). cbv zeta.
      destruct (_hhash b) as [[|c s]|] eqn:Eh.
      * rewrite Hm. eexists. split; [reflexivity|].
        rewrite <- !and_assoc. split.
        -- rewrite !and_assoc. apply Hfin; try reflexivity;
             try assumption. right. reflexivity.
        -- intros hash256'. apply hash_hex_again; try assumption;
             reflexivity.
      * pose proof (Hh _ eq_refl) as Hs. rewrite Hs in Eh |- *.
        rewrite Hm. eexists. split; [reflexivity|].
        rewrite <- !and_assoc. split.
        -- rewrite !and_assoc. apply Hfin; try reflexivity;
             try assumption. right. assumption.
        -- intros hash256'. apply hash_hex_again; try assumption;
             reflexivity.
      * rewrite Hm. eexists. split; [reflexivity|].
        rewrite <- !and_assoc. split.
        -- rewrite !and_assoc. apply Hfin; try reflexivity;
             try assumption. right. reflexivity.
        -- intros hash256'. apply hash_hex_again; try assumption;
             reflexivity.
  - rewrite (hash_not_hex hash256 enc b Ee).
    destruct (_hash b) as [h|] eqn:E.
    + rewrite (Hr h eq_refl) in E. clear Hr.
      rewrite (hash_raw_cached hash256 b _ E).
      exists b. split; [reflexivity|].
      rewrite <- !and_assoc. split.
      * rewrite !and_assoc. apply Hfin; try reflexivity; try assumption.
        left. reflexivity.
      * intros hash256'. rewrite (hash_not_hex hash256' enc b Ee).
        now apply hash_raw_cached.
    + rewrite (hash_raw_fresh hash256 b data E Ha), Hm.
      eexists. split; [reflexivity|].
      rewrite <- !and_assoc. split.
      * rewrite !and_assoc. apply Hfin; try reflexivity; try assumption.
        left. reflexivity.
      * intros hash256'. rewrite (hash_not_hex hash256' enc _ Ee).
        now apply hash_raw_cached.
Qed.

(** C6 (as amended). Caching obeys the flag on a header whose fields have
    not been reassigned under a present cache. For a mutable header [bm]
    whose hash caches are absent: [hash()] and [hash('hex')] recompute from
    the current fields and leave the header as it was (the caches stay
    absent), so for a header [bm'] that differs from [bm] in a consensus
    field only, the hash returned is that of a different 80-byte encoding,
    and differs from the previous one unless [hash256] collides on the two
    encodings. For an immutable header [bi] whose caches are both absent or
    both consistent with the current fields (a cache is consistent when it is
    absent or holds the value derived from the current fields): [hash(enc)]
    returns the value derived from the current fields, keeps the caches
    consistent, and a second call returns the same value from the cache,
    whatever the digest function would compute, leaving the header
    unchanged. For any header [bs], whatever its caches hold, [hash()] after
    [refresh()] returns the hash of the current fields. *)
Theorem hash_caching_obeys_mutable {TX} tx_refresh hash256
    (bm bi bs : AbstractBlock TX) :
  mutable bm = true -> _hash bm = None -> _hhash bm = None ->
  valid_fields bm = true ->
  mutable bi = false -> caches_current hash256 bi ->
  valid_fields bi = true ->
  valid_fields bs = true ->
  (exists data,
     abbr bm = Ok data /\
     hash hash256 VUndefined bm = (Ok (Raw (hash256 data)), bm) /\
     hash hash256 (VStr "hex") bm
       = (Ok (Hex (toString_hex (hash256 data))), bm) /\
     forall bm' : AbstractBlock TX,
       valid_fields bm' = true -> consensus bm' <> consensus bm ->
       mutable bm' = true -> caches bm' = caches bm ->
       exists data',
         abbr bm' = Ok data' /\ data' <> data /\
         hash hash256 VUndefined bm' = (Ok (Raw (hash256 data')), bm') /\
         ((hash256 data' = hash256 data -> data' = data) ->
          fst (hash hash256 VUndefined bm')
          <> fst (hash hash256 VUndefined bm))) /\
  (exists data,
     abbr bi = Ok data /\
     forall enc, exists b1,
       hash hash256 enc bi =
         (Ok (if is_hex enc then Hex (toString_hex (hash256 data))
              else Raw (hash256 data)), b1) /\
       mutable b1 = false /\ consensus b1 = consensus bi /\
       caches_current hash256 b1 /\
       forall hash256',
         hash hash256' enc b1 =
         (Ok (if is_hex enc then Hex (toString_hex (hash256 data))
              else Raw (hash256 data)), b1)) /\
  (forall all, exists b1 b2 data,
     refresh tx_refresh all bs = (Ok tt, b1) /\
     consensus b1 = consensus bs /\
     abbr bs = Ok data /\
     hash hash256 VUndefined b1 = (Ok (Raw (hash256 data)), b2) /\
     (mutable bs = false -> caches_current hash256 b2)).
Proof.
  intros Mm Em Ehm Vm Mi Ci Vi Vs. split; [|split].
  - destruct (abbr_valid_length bm Vm) as (data & Ha & _).
    exists data. split; [assumption|].
    assert (H1 : hash hash256 VUndefined bm = (Ok (Raw (hash256 data)), bm)).
    { rewrite (hash_raw_fresh hash256 bm data Em Ha), Mm. reflexivity. }
    split; [assumption|]. split.
    { rewrite (hash_hex_fresh hash256 bm data Em Ha), Ehm, Mm. reflexivity. }
    intros bm' Vm' Hne Mm' Hcs.
    destruct (abbr_valid_length bm' Vm') as (data' & Ha' & _).
    assert (Em' : _hash bm' = None) by (unfold caches in Hcs; congruence).
    exists data'. split; [assumption|]. split.
    { intros ->. apply Hne. apply (abbr_inj bm' bm data); assumption. }
    assert (H1' : hash hash256 VUndefined bm'
                  = (Ok (Raw (hash256 data')), bm')).
    { rewrite (hash_raw_fresh hash256 bm' data' Em' Ha'), Mm'. reflexivity. }
    split; [assumption|].
    intros Hnc. rewrite H1, H1'. cbn [fst]. intros Heq.
    assert (Hd : data' = data) by (apply Hnc; congruence).
    subst data'. apply Hne. apply (abbr_inj bm' bm data); assumption.
  - destruct (abbr_valid_length bi Vi) as (data & Ha & _).
    exists data. split; [assumption|]. intros enc.
    destruct (hash_immutable hash256 enc bi data Mi Ci Ha)
      as (b1 & H1 & H2 & H3 & H4 & _ & H6).
    exists b1. repeat (split; [assumption|]). assumption.
  - intros all.
    destruct (refresh_clears tx_refresh all bs) as (b1 & Hr & Hc & Hf & Hmu).
    destruct (abbr_valid_length bs Vs) as (data & Ha & _).
    assert (Ha1 : abbr b1 = Ok data)
      by (rewrite (abbr_consensus bs b1 Hf); exact Ha).
    assert (E1 : _hash b1 = None) by (unfold caches in Hc; congruence).
    assert (E2 : _hhash b1 = None) by (unfold caches in Hc; congruence).
    exists b1. eexists. exists data.
    split; [assumption|]. split; [assumption|]. split; [assumption|].
    split; [apply (hash_raw_fresh hash256 b1 data E1 Ha1)|].
    intros Ms. rewrite Hmu, Ms.
    apply (caches_current_intro hash256 _ data).
    + rewrite (abbr_consensus b1 (set__hash (Some (hash256 data)) b1)
                 eq_refl).
      exact Ha1.
    + cbn [_hash set__hash]. congruence.
    + cbn [_hhash set__hash]. congruence.
Qed.

(** ** Reachable headers *)

Lemma coherent_frame {TX} (b b' : AbstractBlock TX) :
  caches b' = caches b -> cache_coherent b -> cache_coherent b'.
Proof.
  unfold caches, cache_coherent. intros H Hc s Hs.
  inversion H as [[H1 H2 H3 H4]]. rewrite H1. apply Hc. congruence.
Qed.

Lemma hash_coherent {TX} hash256 enc (b : AbstractBlock TX) r b' :
  cache_coherent b -> hash hash256 enc b = (r, b') -> cache_coherent b'.
Proof.
  intros Hc H.
  destruct (_hash b) as [h|] eqn:E.
  - destruct (is_hex enc) eqn:Ee.
    + apply is_hex_inv in Ee. subst enc.
      destruct (hash_hex_of_cached hash256 b h Hc E) as (b1 & H1 & Hc1 & _).
      rewrite H1 in H. inversion H. subst. assumption.
    + rewrite (hash_not_hex hash256 enc b Ee),
        (hash_raw_cached hash256 b h E) in H.
      inversion H. subst. assumption.
  - pose proof (coherent_no_raw b Hc E) as Eh.
    destruct (abbr b) as [data|e] eqn:Ha.
    2:{ rewrite (hash_throw hash256 enc b e E Ha) in H.
        inversion H. subst. assumption. }
    destruct (is_hex enc) eqn:Ee.
    + apply is_hex_inv in Ee. subst enc.
      rewrite (hash_hex_fresh hash256 b data E Ha), Eh in H. cbv zeta in H.
      inversion H. destruct (mutable b); [assumption|].
      now apply coherent_set_hhash.
    + rewrite (hash_not_hex hash256 enc b Ee),
        (hash_raw_fresh hash256 b data E Ha) in H.
      inversion H. apply coherent_no_hex. destruct (mutable b); assumption.
Qed.

Lemma step_coherent {TX} tx_refresh hash256 (b b' : AbstractBlock TX) :
  step tx_refresh hash256 b b' -> cache_coherent b -> cache_coherent b'.
Proof.
  intros Hs Hc. destruct Hs as [o b r b' H|o b r b' H|br b r b' H
                               |all b r b' H|enc b r b' H|b r b' H].
  - apply (coherent_frame b); [apply (parseOptions_frame o b r b' H)|exact Hc].
  - apply (coherent_frame b); [apply (parseJSON_frame o b r b' H)|exact Hc].
  - apply (coherent_frame b); [apply (parseAbbr_frame br b r b' H)|exact Hc].
  - destruct (refresh_clears tx_refresh all b) as (b1 & H1 & Hcl & _).
    rewrite H1 in H. inversion H. subst. apply coherent_no_hex.
    unfold caches in Hcl. congruence.
  - apply (hash_coherent hash256 enc b r b' Hc H).
  - unfold rhash in H. unfold_method.
    unfold bind in H.
    destruct (hash hash256 (VStr "hex") b) as [[[raw|s]|e] b1] eqn:Hh;
      inversion H; subst;
      apply (hash_coherent hash256 (VStr "hex") b _ _ Hc Hh).
Qed.

(** Every header obtained from the constructor by method calls has a
    coherent cache pair. *)
Lemma reachable_coherent {TX} tx_refresh hash256 (b : AbstractBlock TX) :
  reachable tx_refresh hash256 b -> cache_coherent b.
Proof.
  induction 1 as [|b b' Hr IH Hs].
  - apply coherent_no_hex. reflexivity.
  - apply (step_coherent tx_refresh hash256 b b' Hs IH).
Qed.

(** ** The theorems on concrete headers *)

(** The genesis-style header of section 8 encodes to the documented bytes. *)
Example abbr_genesis :
  abbr sample_header =
  Ok (u32le 1 ++ repeat x00 32 ++
      [ x3b; xa3; xed; xfd; x7a; x7b; x12; xb2; x7a; xc7; x2c; x3e;
        x67; x76; x8f; x61; x7f; xc8; x1b; xc3; x88; x8a; x51; x32;
        x3a; x9f; xb8; xaa; x4b; x1e; x5e; x4a ] ++
      [ x29; xab; x5f; x49 ] ++ [ xff; xff; x00; x1d ] ++
      [ x1d; xac; x2b; x7c ]).
Proof. reflexivity. Qed.

Lemma abbr_parseAbbr_roundtrip_witness :
  valid_fields sample_header = true /\
  exists data,
    abbr sample_header = Ok data /\ List.length data = 80%nat /\
    forall this : AbstractBlock unit,
    exists br this',
      parseAbbr (BufferReader_new data) this = (Ok br, this') /\
      consensus this' = consensus sample_header.
Proof.
  split; [reflexivity|].
  destruct (abbr_parseAbbr_roundtrip sample_header eq_refl)
    as (data & p & m & Ha & Hl & _ & _ & _ & _ & _ & Hd).
  exists data. split; [exact Ha|]. split; [exact Hl|].
  intros this. destruct (Hd this) as (br & this' & Hp & _ & Hc & _).
  exists br, this'. split; [exact Hp|exact Hc].
Defined.


Lemma powHash_is_scrypt_of_abbr_witness :
  valid_fields sample_header = true /\
  exists data,
    abbr sample_header = Ok data /\
    powHash sample_scrypt sample_header
      = Ok (sample_scrypt data data 1024 1 1 32) /\
    powHash sample_scrypt mutable_header
      = Ok (sample_scrypt data data 1024 1 1 32) /\
    powHash sample_scrypt stale_header
      = Ok (sample_scrypt data data 1024 1 1 32).
Proof.
  split; [reflexivity|].
  destruct (powHash_is_scrypt_of_abbr sample_scrypt sample_header eq_refl)
    as (data & Ha & _ & Hp & Hs).
  exists data. split; [exact Ha|]. split; [exact Hp|].
  split; apply Hs; reflexivity.
Defined.

Lemma verify_pow_then_body_witness :
  verifyPOW sample_scrypt sample_verifyPOW (core failing_probe) = Ok false /\
  verify sample_scrypt sample_verifyPOW failing_probe
    = (Ok false, failing_probe) /\
  probe_calls (snd (verify sample_scrypt sample_verifyPOW failing_probe))
    = 0%nat /\
  verifyPOW sample_scrypt sample_verifyPOW (core passing_probe) = Ok true /\
  verify sample_scrypt sample_verifyPOW passing_probe
    = verifyBody passing_probe /\
  probe_calls (snd (verify sample_scrypt sample_verifyPOW passing_probe))
    = 1%nat.
Proof.
  destruct (verify_pow_then_body sample_scrypt sample_verifyPOW failing_probe)
    as (_ & Hf & _ & _).
  destruct (verify_pow_then_body sample_scrypt sample_verifyPOW passing_probe)
    as (_ & _ & _ & Hp).
  split; [reflexivity|]. split; [exact (Hf eq_refl)|].
  split; [rewrite (Hf eq_refl); reflexivity|].
  split; [reflexivity|]. split; [exact (Hp eq_refl)|].
  rewrite (Hp eq_refl). reflexivity.
Defined.

(** C5 as stated fails: on the fresh header that has been hashed,
    [parseOptions] changes the consensus fields and keeps all four caches,
    and the following [hash()] returns the hash of the former fields. *)
Lemma parseOptions_leaves_stale_hash :
  ~ invalidates_on_change (@parseOptions unit sample_options) /\
  exists stale data : bytes,
    reachable (fun t : unit => t) sample_hash256 reinjected_header /\
    parseOptions sample_options hashed_header = (Ok tt, reinjected_header) /\
    consensus reinjected_header <> consensus hashed_header /\
    caches reinjected_header = caches hashed_header /\
    _hash reinjected_header = Some stale /\
    hash sample_hash256 VUndefined reinjected_header
      = (Ok (Raw stale), reinjected_header) /\
    abbr reinjected_header = Ok data /\
    stale <> sample_hash256 data.
Proof.
  assert (Hne : consensus reinjected_header <> consensus hashed_header).
  { intros H. vm_compute in H. discriminate H. }
  split.
  - intros Hinv.
    specialize (Hinv hashed_header reinjected_header eq_refl Hne).
    vm_compute in Hinv. discriminate Hinv.
  - exists (match _hash hashed_header with Some h => h | None => [] end).
    exists (match abbr reinjected_header with Ok d => d | Throw _ => [] end).
    split.
    { apply (reachable_step _ _ hashed_header).
      - apply (reachable_step _ _ AbstractBlock_new).
        + apply reachable_new.
        + apply (step_hash _ _ (VStr "hex") AbstractBlock_new
                   (fst (hash sample_hash256 (VStr "hex")
                           (@AbstractBlock_new unit)))).
          apply surjective_pairing.
      - apply (step_parseOptions _ _ sample_options hashed_header (Ok tt)).
        vm_compute. reflexivity. }
    split; [vm_compute; reflexivity|]. split; [exact Hne|].
    split; [vm_compute; reflexivity|]. split; [vm_compute; reflexivity|].
    split; [vm_compute; reflexivity|]. split; [vm_compute; reflexivity|].
    intros H. vm_compute in H. discriminate H.
Qed.

(** C6 as stated fails: the hashed header to which [parseOptions] has given
    other fields and the [mutable] flag is mutable, yet [hash()] answers from
    the cache with the hash of the former fields; and without the flag it is
    immutable with both caches present and neither consistent with the
    current fields. *)
Lemma hash_trusts_cache_when_mutable :
  exists stale data : bytes,
    reachable (fun t : unit => t) sample_hash256 remutabled_header /\
    mutable remutabled_header = true /\
    abbr remutabled_header = Ok data /\
    hash sample_hash256 VUndefined remutabled_header
      = (Ok (Raw stale), remutabled_header) /\
    stale <> sample_hash256 data /\
    _hash remutabled_header = Some stale /\
    mutable reinjected_header = false /\
    _hash reinjected_header <> None /\
    _hhash reinjected_header <> None /\
    ~ caches_current sample_hash256 reinjected_header.
Proof.
  exists (match _hash hashed_header with Some h => h | None => [] end).
  exists (match abbr remutabled_header with Ok d => d | Throw _ => [] end).
  split.
  { apply (reachable_step _ _ hashed_header).
    - apply (reachable_step _ _ AbstractBlock_new).
      + apply reachable_new.
      + apply (step_hash _ _ (VStr "hex") AbstractBlock_new
                 (fst (hash sample_hash256 (VStr "hex")
                           (@AbstractBlock_new unit)))).
        apply surjective_pairing.
    - apply (step_parseOptions _ _ mutable_options hashed_header (Ok tt)).
      vm_compute. reflexivity. }
  split; [vm_compute; reflexivity|]. split; [vm_compute; reflexivity|].
  split; [vm_compute; reflexivity|]. split.
  { intros H. vm_compute in H. discriminate H. }
  split; [vm_compute; reflexivity|]. split; [vm_compute; reflexivity|].
  split; [intros H; vm_compute in H; discriminate H|].
  split; [intros H; vm_compute in H; discriminate H|].
  intros [[H _]|[Hr _]].
  - vm_compute in H. discriminate H.
  - destruct (Hr (match _hash hashed_header with Some h => h | None => [] end))
      as (d & Hd & He); [vm_compute; reflexivity|].
    vm_compute in Hd. inversion Hd. subst d.
    vm_compute in He. discriminate He.
Qed.

Lemma injectors_keep_caches_refresh_clears_witness :
  caches (snd (parseOptions sample_options hashed_header))
    = caches hashed_header /\
  well_formed sample_options = true /\
  (exists b',
     parseOptions sample_options hashed_header = (Ok tt, b') /\
     consensus b' =
       (1, NULL_HASH, NULL_HASH, 1231006505, 486604799, 2083236893)) /\
  exists b' b'' data,
    refresh (fun t : unit => t) VUndefined hashed_header = (Ok tt, b') /\
    caches b' = (None, None, -1, -1) /\
    abbr hashed_header = Ok data /\
    hash sample_hash256 VUndefined b' = (Ok (Raw (sample_hash256 data)), b'').
Proof.
  destruct (injectors_keep_caches_refresh_clears (fun t : unit => t)
              sample_hash256 hashed_header)
    as (Ho & _ & _ & Ha & _ & _ & _ & Hr).
  split; [|split; [reflexivity|split]].
  - apply (Ho sample_options
             (fst (parseOptions sample_options hashed_header))).
    apply surjective_pairing.
  - exact (Ha sample_options eq_refl).
  - destruct (Hr VUndefined) as (b' & H1 & H2 & _ & H3).
    destruct (abbr_valid_length hashed_header eq_refl) as (data & Hd & _).
    destruct (H3 data Hd) as (b'' & H4).
    exists b', b'', data. repeat (split; [assumption|]). assumption.
Defined.

Lemma hash_caching_obeys_mutable_witness :
  (mutable mutable_header = true /\ _hash mutable_header = None /\
   _hhash mutable_header = None /\ valid_fields mutable_header = true) /\
  (mutable sample_header = false /\
   caches_current sample_hash256 sample_header /\
   valid_fields sample_header = true) /\
  valid_fields stale_header = true /\
  fst (hash sample_hash256 VUndefined renonced_header)
    <> fst (hash sample_hash256 VUndefined mutable_header) /\
  (exists b1,
     hash sample_hash256 (VStr "hex") sample_header
       = (Ok (Hex (toString_hex (sample_hash256
            (match abbr sample_header with Ok d => d | Throw _ => [] end)))),
          b1) /\
     forall hash256',
       hash hash256' (VStr "hex") b1 = hash sample_hash256 (VStr "hex") b1) /\
  (exists b1 b2 data,
     refresh (fun t : unit => t) VUndefined stale_header = (Ok tt, b1) /\
     abbr stale_header = Ok data /\
     hash sample_hash256 VUndefined b1
       = (Ok (Raw (sample_hash256 data)), b2)).
Proof.
  assert (Hcur : caches_current sample_hash256 sample_header)
    by (left; split; reflexivity).
  destruct (hash_caching_obeys_mutable (fun t : unit => t) sample_hash256
              mutable_header sample_header stale_header
              eq_refl eq_refl eq_refl eq_refl eq_refl Hcur eq_refl eq_refl)
    as ((data & Ha & _ & _ & Hm) & (datai & Hai & Hi) & Hs).
  split; [repeat split|]. split; [repeat split; assumption|].
  split; [reflexivity|]. split; [|split].
  - assert (Hne : consensus renonced_header <> consensus mutable_header).
    { intros H. vm_compute in H. discriminate H. }
    destruct (Hm renonced_header eq_refl Hne eq_refl eq_refl)
      as (data' & _ & _ & _ & Hd).
    apply Hd. intros H. exact H.
  - destruct (Hi (VStr "hex")) as (b1 & H1 & _ & _ & _ & H2).
    exists b1. rewrite Hai. split; [exact H1|].
    intros hash256'. rewrite (H2 hash256'), (H2 sample_hash256). reflexivity.
  - destruct (Hs VUndefined) as (b1 & b2 & datas & H1 & _ & H2 & H3 & _).
    exists b1, b2, datas. split; [assumption|]. split; assumption.
Defined.

(** C7 as stated fails for [parseAbbr]: on 79 bytes it throws only at the
    sixth field, and the receiver the caller holds is by then a header whose
    first five fields come from the input and whose nonce is the old one. *)
Lemma parseAbbr_leaves_partial_header :
  exists this',
    parseAbbr (BufferReader_new short_wire) sample_header
      = (Throw OutOfBounds, this') /\
    this' <> sample_header /\
    version sample_header = 1 /\ version this' = 16843009 /\
    prevBlock this' <> prevBlock sample_header /\
    merkleRoot this' <> merkleRoot sample_header /\
    ts this' = 16843009 /\ bits this' = 16843009 /\
    nonce this' = 2083236893 /\ nonce sample_header = 2083236893.
Proof.
  exists (snd (parseAbbr (BufferReader_new short_wire) sample_header)).
  split; [vm_compute; reflexivity|].
  split; [intros H; vm_compute in H; discriminate H|].
  split; [reflexivity|]. split; [vm_compute; reflexivity|].
  split; [intros H; vm_compute in H; discriminate H|].
  split; [intros H; vm_compute in H; discriminate H|].
  split; [vm_compute; reflexivity|]. split; [vm_compute; reflexivity|].
  split; [vm_compute; reflexivity|reflexivity].
Qed.

Lemma construction_rejects_malformed_witness :
  well_formed options_missing_merkleRoot = false /\
  well_formed VUndefined = false /\
  (List.length short_wire < 80)%nat /\
  parseOptions options_missing_merkleRoot (@AbstractBlock_new unit)
    = (Throw (AssertionError None), AbstractBlock_new) /\
  kind_of (AssertionError None) = TypeMismatch /\
  parseOptions VUndefined (@AbstractBlock_new unit)
    = (Throw (AssertionError (Some "Block data is required.")),
       AbstractBlock_new) /\
  kind_of (AssertionError (Some "Block data is required.")) = InvalidData /\
  fst (parseAbbr (BufferReader_new short_wire) sample_header)
    = Throw OutOfBounds /\
  kind_of OutOfBounds = TruncatedInput /\
  bits (snd (parseAbbr (BufferReader_new short_wire) sample_header))
    = 16843009 /\
  nonce (snd (parseAbbr (BufferReader_new short_wire) sample_header))
    = nonce sample_header /\
  caches (snd (parseAbbr (BufferReader_new short_wire) sample_header))
    = caches sample_header.
Proof.
  assert (Hlen : (List.length short_wire < 80)%nat) by (cbn; lia).
  split; [reflexivity|]. split; [reflexivity|]. split; [exact Hlen|].
  pose proof (construction_rejects_malformed (@AbstractBlock_new unit)
                options_missing_merkleRoot short_wire eq_refl Hlen) as H1.
  pose proof (construction_rejects_malformed (@AbstractBlock_new unit)
                VUndefined short_wire eq_refl Hlen) as H2.
  pose proof (construction_rejects_malformed sample_header
                VUndefined short_wire eq_refl Hlen) as H3.
  cbv zeta in H1, H2, H3.
  destruct H1 as (A1 & _ & A2 & _).
  destruct H2 as (B1 & _ & B2 & _).
  destruct H3 as (_ & _ & _ & C1 & C2 & _ & _ & _ & _ & C3 & C4 & C5 & _).
  split; [exact A1|]. split; [exact A2|].
  split; [exact B1|]. split; [exact B2|].
  split; [rewrite C1; reflexivity|]. split; [exact C2|].
  split; [exact C3|]. split; [exact C4|exact C5].
Defined.

(** [parseAbbr] assigns as it reads: on 79 bytes it throws at the nonce,
    after the receiver's version has been overwritten. *)
Example parseAbbr_throws_midway :
  exists this',
    parseAbbr (BufferReader_new short_wire) sample_header
      = (Throw OutOfBounds, this') /\
    version this' = 16843009 /\ nonce this' = nonce sample_header.
Proof. eexists. split; [vm_compute; reflexivity|]. split; reflexivity. Qed.

Lemma rhash_reverses_hash_hex_witness :
  List.length sample_wire = 80%nat /\
  exists br (h h' : AbstractBlock unit),
    parseAbbr (BufferReader_new sample_wire) AbstractBlock_new = (Ok br, h) /\
    rhash sample_hash256 h
      = (Ok (toString_hex (rev (sample_hash256 sample_wire))), h').
Proof.
  split; [reflexivity|].
  destruct (@rhash_reverses_hash_hex unit sample_hash256 sample_wire eq_refl)
    as ((br & h & h' & Hp & _ & _ & Hr & Hx) & _).
  exists br, h, h'. split; [exact Hp|]. rewrite <- Hx. exact Hr.
Defined.

Lemma parseJSON_keeps_mutable_witness :
  well_formed mutable_options = true /\
  (exists this' : AbstractBlock unit,
     parseJSON mutable_options AbstractBlock_new = (Ok tt, this') /\
     mutable this' = false) /\
  (exists this' : AbstractBlock unit,
     parseOptions mutable_options AbstractBlock_new = (Ok tt, this') /\
     mutable this' = true).
Proof.
  split; [reflexivity|].
  destruct (parseJSON_keeps_mutable mutable_options (@AbstractBlock_new unit)
              eq_refl) as (_ & Hj & Ho).
  split; [exact Hj|exact Ho].
Defined.

(** ** Decoding: beyond the round trip of valid headers *)

Lemma decoded_fields {TX} (data : bytes) (this : AbstractBlock TX) :
  List.length data = 80%nat ->
  decoded data this =
  set_nonce (le_value (firstn 4 (skipn 76 data)))
    (set_bits (le_value (firstn 4 (skipn 72 data)))
       (set_ts (le_value (firstn 4 (skipn 68 data)))
          (set_merkleRoot (toString_hex (firstn 32 (skipn 36 data)))
             (set_prevBlock (toString_hex (firstn 32 (skipn 4 data)))
                (set_version (le_value (firstn 4 (skipn 0 data)))
                   this))))).
Proof.
  intros Hlen. unfold decoded. rewrite parseAbbr_full by assumption.
  reflexivity.
Qed.

Lemma decoded_valid {TX} (data : bytes) (this : AbstractBlock TX) :
  List.length data = 80%nat -> valid_fields (decoded data this) = true.
Proof.
  intros Hlen. rewrite decoded_fields by assumption.
  unfold valid_fields.
  cbn [version prevBlock merkleRoot ts bits nonce set_nonce set_bits set_ts
       set_merkleRoot set_prevBlock set_version].
  rewrite !is_u32_le_value_4 by (apply length_slice; lia).
  rewrite !is_hash_toString_hex by (apply length_slice; lia).
  reflexivity.
Qed.

(** X1. Whatever 80 bytes [parseAbbr] decodes, on whatever receiver, the
    header it leaves has valid fields, its six consensus fields depend on
    the bytes only, [abbr] of it returns the very bytes that were decoded,
    and two different 80-byte inputs never decode to the same consensus
    fields. *)
Theorem parseAbbr_then_abbr {TX} (data : bytes) (this : AbstractBlock TX) :
  List.length data = 80%nat ->
  valid_fields (decoded data this) = true /\
  abbr (decoded data this) = Ok data /\
  (forall this2 : AbstractBlock TX,
     consensus (decoded data this2) = consensus (decoded data this)) /\
  (forall data' : bytes,
     List.length data' = 80%nat ->
     consensus (decoded data' this) = consensus (decoded data this) ->
     data' = data).
Proof.
  intros Hlen. split; [|split; [|split]].
  - apply decoded_valid. assumption.
  - apply abbr_parseAbbr. assumption.
  - intros this2. rewrite !decoded_fields by assumption. reflexivity.
  - intros data' Hlen' Hc.
    pose proof (abbr_parseAbbr data this Hlen) as Ha.
    pose proof (abbr_parseAbbr data' this Hlen') as Ha'.
    fold (decoded data this) in Ha. fold (decoded data' this) in Ha'.
    rewrite (abbr_consensus (decoded data this) (decoded data' this) Hc)
      in Ha'.
    congruence.
Qed.

Lemma slice_inside {A} (n j : nat) (pre d post : list A) :
  (j + n <= List.length d)%nat ->
  firstn n (skipn (List.length pre + j) (pre ++ d ++ post))
  = firstn n (skipn j d).
Proof.
  intros H. rewrite skipn_app_exact by reflexivity.
  rewrite skipn_app. replace (j - List.length d)%nat with 0%nat by lia.
  cbn [skipn]. rewrite firstn_app.
  replace (n - List.length (skipn j d))%nat with 0%nat
    by (rewrite length_skipn; lia).
  cbn [firstn]. apply app_nil_r.
Qed.

(** A header read from the middle of a buffer. *)
Lemma parseAbbr_slice {TX} (pre d post : bytes) (this : AbstractBlock TX) :
  List.length d = 80%nat ->
  parseAbbr {| br_data := pre ++ d ++ post; br_offset := List.length pre |}
    this
  = (Ok {| br_data := pre ++ d ++ post;
           br_offset := List.length pre + 80 |},
     decoded d this).
Proof.
  intros Hlen. rewrite decoded_fields by assumption.
  assert (Hall : (List.length pre + 80 <= List.length (pre ++ d ++ post))%nat)
    by (rewrite !length_app; lia).
  unfold parseAbbr. unfold_method.
  rewrite readU32_ok by lia. cbn [fst snd].
  rewrite readHash_hex_ok by lia. cbn [fst snd].
  rewrite readHash_hex_ok by lia. cbn [fst snd].
  rewrite readU32_ok by lia. cbn [fst snd].
  rewrite readU32_ok by lia. cbn [fst snd].
  rewrite readU32_ok by lia. cbn [fst snd].
  rewrite <- !Nat.add_assoc. cbn [Nat.add].
  replace (skipn (List.length pre) (pre ++ d ++ post))
    with (skipn (List.length pre + 0) (pre ++ d ++ post))
    by (f_equal; lia).
  rewrite !slice_inside by lia. reflexivity.
Qed.

(** X2. [parseAbbr] reads exactly the 80 bytes at the reader's position:
    from the middle of a buffer it decodes what it would decode from those
    80 bytes alone and advances the reader by 80, leaving what follows
    unread; hence two headers in a row are decoded by two calls in a row,
    the second overwriting all six fields of the first. *)
Theorem parseAbbr_consumes_80 {TX} (d1 d2 rest : bytes)
    (this : AbstractBlock TX) :
  List.length d1 = 80%nat -> List.length d2 = 80%nat ->
  (forall pre : bytes,
     parseAbbr {| br_data := pre ++ d1 ++ rest;
                  br_offset := List.length pre |} this
     = (Ok {| br_data := pre ++ d1 ++ rest;
              br_offset := List.length pre + 80 |},
        decoded d1 this)) /\
  exists br1 br2,
    parseAbbr (BufferReader_new (d1 ++ d2 ++ rest)) this
      = (Ok br1, decoded d1 this) /\
    br_offset br1 = 80%nat /\
    parseAbbr br1 (decoded d1 this)
      = (Ok br2, decoded d2 (decoded d1 this)) /\
    br_offset br2 = 160%nat /\
    consensus (decoded d2 (decoded d1 this)) = consensus (decoded d2 this).
Proof.
  intros H1 H2. split.
  - intros pre. apply parseAbbr_slice. assumption.
  - exists {| br_data := d1 ++ d2 ++ rest; br_offset := 80 |}.
    exists {| br_data := d1 ++ d2 ++ rest; br_offset := 160 |}.
    split; [|split; [reflexivity|split; [|split; [reflexivity|]]]].
    + apply (parseAbbr_slice [] d1 (d2 ++ rest) this H1).
    + pose proof (parseAbbr_slice d1 d2 rest (decoded d1 this) H2) as H.
      rewrite H1 in H. exact H.
    + rewrite !(decoded_fields d2) by assumption. reflexivity.
Qed.

Ltac decide_leb :=
  repeat match goal with
  | |- context [Nat.leb ?a ?b] =>
      first [ rewrite (proj2 (Nat.leb_le a b)) by lia
            | rewrite (proj2 (Nat.leb_gt a b)) by lia ]
  end.

(** X3. On fewer than 80 bytes [parseAbbr] throws the reader's error after
    having overwritten exactly the fields that fit into the input: the
    version once 4 bytes are there, [prevBlock] with 36, [merkleRoot] with
    68, the timestamp with 72, the bits with 76, never the nonce; with fewer
    than 4 bytes (the empty input included) the receiver is untouched. *)
Theorem parseAbbr_truncated_prefix {TX} (data : bytes)
    (this : AbstractBlock TX) :
  (List.length data < 80)%nat ->
  let n := List.length data in
  let this' := snd (parseAbbr (BufferReader_new data) this) in
  fst (parseAbbr (BufferReader_new data) this) = Throw OutOfBounds /\
  version this' =
    (if Nat.leb 4 n then le_value (firstn 4 data) else version this) /\
  prevBlock this' =
    (if Nat.leb 36 n then toString_hex (firstn 32 (skipn 4 data))
     else prevBlock this) /\
  merkleRoot this' =
    (if Nat.leb 68 n then toString_hex (firstn 32 (skipn 36 data))
     else merkleRoot this) /\
  ts this' =
    (if Nat.leb 72 n then le_value (firstn 4 (skipn 68 data)) else ts this) /\
  bits this' =
    (if Nat.leb 76 n then le_value (firstn 4 (skipn 72 data))
     else bits this) /\
  nonce this' = nonce this /\
  ((n < 4)%nat -> this' = this).
Proof.
  intros Hlen n this'. subst n this'.
  unfold parseAbbr, BufferReader_new. unfold_method.
  destruct (le_lt_dec 4 (List.length data)) as [H1|H1];
    [rewrite readU32_ok by lia; cbn [fst snd Nat.add]
    |rewrite readU32_short by lia; cbn [fst snd]; decide_leb;
     repeat split; reflexivity].
  destruct (le_lt_dec 36 (List.length data)) as [H2|H2];
    [rewrite readHash_hex_ok by lia; cbn [fst snd Nat.add]
    |rewrite readHash_hex_short by lia; cbn [fst snd]; decide_leb;
     repeat split; try reflexivity; intros; lia].
  destruct (le_lt_dec 68 (List.length data)) as [H3|H3];
    [rewrite readHash_hex_ok by lia; cbn [fst snd Nat.add]
    |rewrite readHash_hex_short by lia; cbn [fst snd]; decide_leb;
     repeat split; try reflexivity; intros; lia].
  destruct (le_lt_dec 72 (List.length data)) as [H4|H4];
    [rewrite readU32_ok by lia; cbn [fst snd Nat.add]
    |rewrite readU32_short by lia; cbn [fst snd]; decide_leb;
     repeat split; try reflexivity; intros; lia].
  destruct (le_lt_dec 76 (List.length data)) as [H5|H5];
    [rewrite readU32_ok by lia; cbn [fst snd Nat.add]
    |rewrite readU32_short by lia; cbn [fst snd]; decide_leb;
     repeat split; try reflexivity; intros; lia].
  rewrite readU32_short by lia. cbn [fst snd]. decide_leb.
  repeat split; try reflexivity; intros; lia.
Qed.

(** ** What [hash] writes *)

Ltac frame_cases :=
  cbn [snd]; repeat split; intros;
  cbn [_hash _hhash mutable set__hash set__hhash] in *;
  try reflexivity; try assumption; try congruence.

Lemma hash_frame {TX} hash256 enc (b : AbstractBlock TX) :
  let b' := snd (hash hash256 enc b) in
  consensus b' = consensus b /\ mutable b' = mutable b /\
  txs b' = txs b /\ _size b' = _size b /\ _witness b' = _witness b /\
  (mutable b = true -> b' = b) /\
  (is_hex enc = false -> _hhash b' = _hhash b) /\
  (forall h, _hash b = Some h -> _hash b' = Some h).
Proof.
  cbv zeta.
  destruct (_hash b) as [h|] eqn:E.
  - destruct (is_hex enc) eqn:Ee.
    + apply is_hex_inv in Ee. subst enc.
      rewrite (hash_hex_cached hash256 b h E).
      destruct (_hhash b) as [[|c s]|]; destruct (mutable b) eqn:Em; frame_cases.
    + rewrite (hash_not_hex hash256 enc b Ee),
        (hash_raw_cached hash256 b h E).
      frame_cases.
  - destruct (abbr b) as [data|e] eqn:Ha.
    + destruct (is_hex enc) eqn:Ee.
      * apply is_hex_inv in Ee. subst enc.
        rewrite (hash_hex_fresh hash256 b data E Ha). cbv zeta.
        destruct (_hhash b) as [[|c s]|]; destruct (mutable b) eqn:Em; frame_cases.
      * rewrite (hash_not_hex hash256 enc b Ee),
          (hash_raw_fresh hash256 b data E Ha).
        destruct (mutable b) eqn:Em; frame_cases.
    + rewrite (hash_throw hash256 enc b e E Ha). frame_cases.
Qed.

(** A throwing [hash] has found no cached hash and fields that cannot be
    encoded, and has written nothing. *)
Lemma hash_throw_inv {TX} hash256 enc (b : AbstractBlock TX) e b' :
  hash hash256 enc b = (Throw e, b') ->
  b' = b /\ _hash b = None /\ abbr b = Throw e.
Proof.
  intros H.
  destruct (_hash b) as [h|] eqn:E.
  - destruct (is_hex enc) eqn:Ee.
    + apply is_hex_inv in Ee. subst enc.
      rewrite (hash_hex_cached hash256 b h E) in H.
      destruct (_hhash b) as [[|c s]|]; discriminate H.
    + rewrite (hash_not_hex hash256 enc b Ee),
        (hash_raw_cached hash256 b h E) in H. discriminate H.
  - destruct (abbr b) as [data|e'] eqn:Ha.
    + destruct (is_hex enc) eqn:Ee.
      * apply is_hex_inv in Ee. subst enc.
        rewrite (hash_hex_fresh hash256 b data E Ha) in H. cbv zeta in H.
        destruct (_hhash b) as [[|c s]|]; discriminate H.
      * rewrite (hash_not_hex hash256 enc b Ee),
          (hash_raw_fresh hash256 b data E Ha) in H. discriminate H.
    + rewrite (hash_throw hash256 enc b e' E Ha) in H.
      inversion H. subst. repeat split.
Qed.

(** X4. [hash(enc)] writes nothing but the two hash caches: the consensus
    fields, the flag, the transaction list and the size caches are as
    before; a raw hash already in cache is never replaced; without 'hex'
    the hexadecimal cache is not touched; on a mutable header the whole
    object is as before; and when the call throws (the fields cannot be
    encoded and no hash is cached), the object is as before as well. *)
Theorem hash_writes_only_hash_caches {TX} hash256 enc
    (b : AbstractBlock TX) r b' :
  hash hash256 enc b = (r, b') ->
  consensus b' = consensus b /\ mutable b' = mutable b /\
  txs b' = txs b /\ _size b' = _size b /\ _witness b' = _witness b /\
  (mutable b = true -> b' = b) /\
  (is_hex enc = false -> _hhash b' = _hhash b) /\
  (forall h, _hash b = Some h -> _hash b' = Some h) /\
  (forall e, r = Throw e ->
     b' = b /\ _hash b = None /\ abbr b = Throw e).
Proof.
  intros H. pose proof (hash_frame hash256 enc b) as F. cbv zeta in F.
  rewrite H in F. cbn [snd] in F.
  destruct F as (F1 & F2 & F3 & F4 & F5 & F6 & F7 & F8).
  repeat (split; [assumption|]).
  intros e ->. apply (hash_throw_inv hash256 enc b e b' H).
Qed.

(** [hash('hex')] after a successful [hash()]: the rendering of the same
    bytes, and a state on which asking again changes nothing. *)
Lemma hash_hex_after_raw {TX} hash256 (b : AbstractBlock TX) raw b1 :
  cache_coherent b ->
  hash hash256 VUndefined b = (Ok (Raw raw), b1) ->
  exists b2,
    hash hash256 (VStr "hex") b = (Ok (Hex (toString_hex raw)), b2) /\
    hash hash256 (VStr "hex") b2 = (Ok (Hex (toString_hex raw)), b2).
Proof.
  intros Hc H.
  destruct (_hash b) as [h|] eqn:E.
  - rewrite (hash_raw_cached hash256 b h E) in H. inversion H. subst raw b1.
    clear H. pose proof (hash_hex_cached hash256 b h E) as Hx.
    destruct (_hhash b) as [[|c s]|] eqn:Eh.
    + destruct (mutable b) eqn:Em.
      * exists b. split; exact Hx.
      * eexists. split; [exact Hx|]. now apply hash_hex_again.
    + destruct (Hc _ Eh) as (h' & E' & Hs).
      assert (h' = h) by congruence. subst h'. rewrite Hs in Hx.
      exists b. split; exact Hx.
    + destruct (mutable b) eqn:Em.
      * exists b. split; exact Hx.
      * eexists. split; [exact Hx|]. now apply hash_hex_again.
  - pose proof (coherent_no_raw b Hc E) as Eh.
    destruct (abbr b) as [data|e] eqn:Ha.
    2:{ rewrite (hash_throw hash256 VUndefined b e E Ha) in H.
        discriminate H. }
    rewrite (hash_raw_fresh hash256 b data E Ha) in H.
    inversion H. subst raw. clear H.
    pose proof (hash_hex_fresh hash256 b data E Ha) as Hx.
    rewrite Eh in Hx. cbv zeta in Hx.
    destruct (mutable b) eqn:Em.
    + exists b. split; exact Hx.
    + eexists. split; [exact Hx|]. now apply hash_hex_again.
Qed.

(** X5. [toInv()] is a view of [hash('hex')]: when [hash()] returns the
    bytes [raw], the item is (BLOCK, lowercase hexadecimal of [raw]), the
    header is left as [hash('hex')] leaves it, and asking again gives the
    same item and changes nothing more; when [hash('hex')] throws, [toInv()]
    throws the same. *)
Theorem toInv_is_block_and_hash_hex {TX InvType} hash256 (BLOCK : InvType)
    (b : AbstractBlock TX) raw b1 :
  cache_coherent b ->
  hash hash256 VUndefined b = (Ok (Raw raw), b1) ->
  (exists b2,
     toInv hash256 BLOCK b
       = (Ok {| inv_type := BLOCK; inv_hash := Hex (toString_hex raw) |}, b2) /\
     b2 = snd (hash hash256 (VStr "hex") b) /\
     toInv hash256 BLOCK b2
       = (Ok {| inv_type := BLOCK; inv_hash := Hex (toString_hex raw) |}, b2)) /\
  (forall (c : AbstractBlock TX) e c',
     hash hash256 (VStr "hex") c = (Throw e, c') ->
     toInv hash256 BLOCK c = (Throw e, c)).
Proof.
  intros Hc H. split.
  - destruct (hash_hex_after_raw hash256 b raw b1 Hc H) as (b2 & H1 & H2).
    exists b2. unfold toInv. rewrite H1, H2. cbn [snd].
    repeat split.
  - intros c e c' Ht. unfold toInv. rewrite Ht.
    destruct (hash_throw_inv hash256 _ c e c' Ht) as (-> & _).
    reflexivity.
Qed.

(** X6. [rhash()] and [hash('hex')] are byte reversals of each other: when
    [hash()] returns the bytes [raw], [rhash()] returns the hexadecimal
    rendering of [raw] reversed, [revHex] of that string is what
    [hash('hex')] returns, and a second [rhash()] returns the same string
    and changes nothing more. *)
Theorem rhash_revHex_round_trip {TX} hash256 (b : AbstractBlock TX) raw b1 :
  cache_coherent b ->
  hash hash256 VUndefined b = (Ok (Raw raw), b1) ->
  exists b2,
    rhash hash256 b = (Ok (toString_hex (rev raw)), b2) /\
    hash hash256 (VStr "hex") b = (Ok (Hex (toString_hex raw)), b2) /\
    revHex (toString_hex (rev raw)) = toString_hex raw /\
    rhash hash256 b2 = (Ok (toString_hex (rev raw)), b2).
Proof.
  intros Hc H.
  destruct (hash_hex_after_raw hash256 b raw b1 Hc H) as (b2 & H1 & H2).
  exists b2. unfold rhash. unfold_method. unfold bind.
  rewrite H1, H2, !revHex_toString_hex, rev_involutive.
  repeat split.
Qed.

(** ** [refresh] *)

Lemma refresh_txs {TX} tx_refresh (all : jsval) (b : AbstractBlock TX) :
  fst (refresh tx_refresh all b) = Ok tt /\
  txs (snd (refresh tx_refresh all b)) =
    (if truthy all then option_map (map tx_refresh) (txs b) else txs b).
Proof.
  unfold refresh, _refresh. unfold_method.
  destruct b as [v p m t bi n tx mu h hh sz w].
  destruct (truthy all); destruct tx; split; reflexivity.
Qed.

(** X7. [refresh(all)] never throws; it leaves the transaction list alone
    unless [all] is truthy and the list is not [null], in which case every
    transaction, in order, has been refreshed once; a shallow refresh after
    any refresh changes nothing; and on a header whose four caches are
    absent, [hash(enc)] followed by a shallow [refresh()] gives the header
    back exactly, whether or not the hash could be computed. *)
Theorem refresh_shallow_deep_and_undo {TX} tx_refresh hash256
    (all enc : jsval) (b : AbstractBlock TX) :
  fst (refresh tx_refresh all b) = Ok tt /\
  txs (snd (refresh tx_refresh all b)) =
    (if truthy all then option_map (map tx_refresh) (txs b) else txs b) /\
  refresh tx_refresh VUndefined (snd (refresh tx_refresh all b))
    = (Ok tt, snd (refresh tx_refresh all b)) /\
  (caches b = (None, None, -1, -1) ->
   refresh tx_refresh VUndefined (snd (hash hash256 enc b)) = (Ok tt, b)).
Proof.
  destruct (refresh_txs tx_refresh all b) as [R1 R2].
  split; [exact R1|]. split; [exact R2|]. split.
  - unfold refresh, _refresh. unfold_method.
    destruct b as [v p m t bi n tx mu h hh sz w].
    destruct (truthy all); destruct tx; reflexivity.
  - intros H. destruct b as [v p m t bi n tx mu h hh sz w].
    unfold caches in H. cbn [_hash _hhash _size _witness] in H.
    inversion H. subst. clear H.
    match goal with |- context [hash _ _ ?x] => set (b := x) end.
    assert (E : _hash b = None) by reflexivity.
    destruct (abbr b) as [data|e] eqn:Ha.
    + destruct (is_hex enc) eqn:Ee.
      * apply is_hex_inv in Ee. subst enc.
        rewrite (hash_hex_fresh hash256 b data E Ha).
        subst b. destruct mu; reflexivity.
      * rewrite (hash_not_hex hash256 enc b Ee),
          (hash_raw_fresh hash256 b data E Ha).
        subst b. destruct mu; reflexivity.
    + rewrite (hash_throw hash256 enc b e E Ha). reflexivity.
Qed.

(** ** The injectors as total overwrites *)

(** X8. On an object that passes the checks, [parseOptions] and [parseJSON]
    replace all six consensus fields: the fields afterwards are read off the
    object alone, whatever the receiver held, and injecting the same object
    a second time changes nothing. *)
Theorem injectors_overwrite_all_fields {TX} (o : jsval)
    (b1 b2 : AbstractBlock TX) :
  well_formed o = true ->
  consensus (snd (parseOptions o b1)) =
    (num_of (get o "version"), str_of (get o "prevBlock"),
     str_of (get o "merkleRoot"), num_of (get o "ts"),
     num_of (get o "bits"), num_of (get o "nonce")) /\
  consensus (snd (parseOptions o b2)) = consensus (snd (parseOptions o b1)) /\
  consensus (snd (parseJSON o b2)) = consensus (snd (parseJSON o b1)) /\
  parseOptions o (snd (parseOptions o b1))
    = (Ok tt, snd (parseOptions o b1)) /\
  parseJSON o (snd (parseJSON o b1)) = (Ok tt, snd (parseJSON o b1)).
Proof.
  intros Hw.
  rewrite !(parseOptions_ok o _ Hw), !(parseJSON_ok o _ Hw). cbv zeta.
  cbn [snd].
  rewrite ?(parseOptions_ok o _ Hw), ?(parseJSON_ok o _ Hw). cbv zeta.
  destruct (not_nullish (get o "mutable")); repeat split.
Qed.

(** X9. [parseJSON] is [parseOptions] in display order: when two objects
    pass the checks, agree on the four numbers, the hash strings of the one
    are [revHex] of those of the other and the first carries no [mutable]
    property, [parseOptions] of the first and [parseJSON] of the second
    leave the same header. *)
Theorem parseJSON_is_parseOptions_reversed {TX} (o j : jsval)
    (b : AbstractBlock TX) :
  well_formed o = true -> well_formed j = true ->
  num_of (get o "version") = num_of (get j "version") ->
  num_of (get o "ts") = num_of (get j "ts") ->
  num_of (get o "bits") = num_of (get j "bits") ->
  num_of (get o "nonce") = num_of (get j "nonce") ->
  str_of (get o "prevBlock") = revHex (str_of (get j "prevBlock")) ->
  str_of (get o "merkleRoot") = revHex (str_of (get j "merkleRoot")) ->
  not_nullish (get o "mutable") = false ->
  parseOptions o b = parseJSON j b.
Proof.
  intros Ho Hj Hv Ht Hb Hn Hp Hm Hmu.
  rewrite (parseOptions_ok o b Ho), (parseJSON_ok j b Hj). cbv zeta.
  rewrite Hmu, Hv, Ht, Hb, Hn, Hp, Hm. reflexivity.
Qed.

(** ** Invariants of the reachable headers *)

Lemma rhash_state {TX} hash256 (b : AbstractBlock TX) :
  snd (rhash hash256 b) = snd (hash hash256 (VStr "hex") b).
Proof.
  unfold rhash. unfold_method. unfold bind.
  destruct (hash hash256 (VStr "hex") b) as [[[raw|s]|e] b']; reflexivity.
Qed.

Lemma step_sizes_txs {TX} tx_refresh hash256 (b b' : AbstractBlock TX) :
  step tx_refresh hash256 b b' ->
  _size b = -1 /\ _witness b = -1 /\ txs b = None ->
  _size b' = -1 /\ _witness b' = -1 /\ txs b' = None.
Proof.
  intros Hs (I1 & I2 & I3).
  destruct Hs as [o b r b' H|o b r b' H|br b r b' H
                 |all b r b' H|enc b r b' H|b r b' H].
  - destruct (parseOptions_frame o b r b' H) as [Hc Ht].
    unfold caches in Hc. inversion Hc. repeat split; congruence.
  - destruct (parseJSON_frame o b r b' H) as (Hc & Ht & _).
    unfold caches in Hc. inversion Hc. repeat split; congruence.
  - destruct (parseAbbr_frame br b r b' H) as (Hc & Ht & _).
    unfold caches in Hc. inversion Hc. repeat split; congruence.
  - destruct (refresh_clears tx_refresh all b) as (b1 & H1 & Hc & _).
    destruct (refresh_txs tx_refresh all b) as [_ Ht].
    rewrite H in H1, Ht. inversion H1. subst b1. cbn [snd] in Ht.
    unfold caches in Hc. inversion Hc.
    repeat split; try reflexivity.
    rewrite Ht, I3. destruct (truthy all); reflexivity.
  - pose proof (hash_frame hash256 enc b) as F. cbv zeta in F.
    rewrite H in F. cbn [snd] in F.
    destruct F as (_ & _ & F3 & F4 & F5 & _). repeat split; congruence.
  - pose proof (hash_frame hash256 (VStr "hex") b) as F. cbv zeta in F.
    rewrite <- rhash_state, H in F. cbn [snd] in F.
    destruct F as (_ & _ & F3 & F4 & F5 & _). repeat split; congruence.
Qed.

(** X10. On every header obtained from the constructor by calls of
    [parseOptions], [parseJSON], [parseAbbr], [refresh], [hash] and [rhash],
    in any order and whatever their outcomes: the two size caches are still
    -1, the transaction list is still [null], and the hexadecimal cache, if
    present, is the rendering of the raw cache, which is then present
    too. *)
Theorem reachable_invariants {TX} tx_refresh hash256 (b : AbstractBlock TX) :
  reachable tx_refresh hash256 b ->
  _size b = -1 /\ _witness b = -1 /\ txs b = None /\
  (forall s, _hhash b = Some s ->
     exists h, _hash b = Some h /\ s = toString_hex h).
Proof.
  intros Hr.
  assert (H : _size b = -1 /\ _witness b = -1 /\ txs b = None).
  { induction Hr as [|b b' Hr IH Hs].
    - repeat split.
    - apply (step_sizes_txs tx_refresh hash256 b b' Hs IH). }
  destruct H as (H1 & H2 & H3). repeat (split; [assumption|]).
  apply (reachable_coherent tx_refresh hash256 b Hr).
Qed.

(** ** The encoding separates valid headers *)

(** X11. Two headers with valid fields have the same 80-byte encoding
    exactly when their six consensus fields are equal; so their
    proof-of-work hashes are computed from different inputs whenever a
    consensus field differs. *)
Theorem abbr_separates_valid_headers {TX} (h h' : AbstractBlock TX) :
  valid_fields h = true -> valid_fields h' = true ->
  (abbr h = abbr h' <-> consensus h = consensus h').
Proof.
  intros Hv Hv'. split.
  - intros He. destruct (abbr_valid_length h Hv) as (data & Ha & _).
    apply (abbr_inj h h' data); try assumption. congruence.
  - intros Hc. symmetry. apply abbr_consensus. symmetry. exact Hc.
Qed.

(** ** [verify] on well-formed headers *)

(** X12. On a block variant whose header has valid fields, [verifyPOW()]
    does not throw and its verdict is that of the consensus rule on the
    scrypt digest of the encoding and the bits, the same for every header
    with these consensus fields; and when the body check returns a verdict,
    [verify()] returns the conjunction of the two, the object being as the
    body check left it if the proof of work passed and untouched
    otherwise. *)
Theorem verify_on_valid_header {TX} scrypt consensus_verifyPOW
    {S} `{BlockVariant TX S} (this : S) :
  valid_fields (core this) = true ->
  exists data,
    abbr (core this) = Ok data /\
    let pow := consensus_verifyPOW (scrypt data data 1024 1 1 32)
                 (bits (core this)) in
    verifyPOW scrypt consensus_verifyPOW (core this) = Ok pow /\
    (forall h' : AbstractBlock TX,
       consensus h' = consensus (core this) ->
       verifyPOW scrypt consensus_verifyPOW h' = Ok pow) /\
    (forall body this',
       verifyBody this = (Ok body, this') ->
       verify scrypt consensus_verifyPOW this
       = (Ok (pow && body), if pow then this' else this)).
Proof.
  intros Hv. destruct (abbr_valid_length _ Hv) as (data & Ha & _).
  exists data. split; [exact Ha|]. cbv zeta.
  assert (Hp : verifyPOW scrypt consensus_verifyPOW (core this)
               = Ok (consensus_verifyPOW (scrypt data data 1024 1 1 32)
                       (bits (core this)))).
  { unfold verifyPOW, powHash. rewrite Ha. reflexivity. }
  split; [exact Hp|]. split.
  - intros h' Hc. unfold verifyPOW, powHash.
    rewrite (abbr_consensus (core this) h' Hc), Ha. cbn [rbind].
    unfold consensus in Hc. inversion Hc. reflexivity.
  - intros body this' Hb. unfold verify. rewrite Hp.
    destruct (consensus_verifyPOW (scrypt data data 1024 1 1 32)
                (bits (core this))); [|reflexivity].
    rewrite Hb. destruct body; reflexivity.
Qed.

(** ** The further theorems on concrete inputs *)

Lemma parseAbbr_then_abbr_witness :
  List.length sample_wire = 80%nat /\
  valid_fields (decoded sample_wire sample_header) = true /\
  abbr (decoded sample_wire sample_header) = Ok sample_wire /\
  consensus (decoded sample_wire stale_header)
    = consensus (decoded sample_wire sample_header).
Proof.
  split; [reflexivity|].
  destruct (parseAbbr_then_abbr sample_wire sample_header eq_refl)
    as (H1 & H2 & H3 & _).
  split; [exact H1|]. split; [exact H2|exact (H3 stale_header)].
Defined.

Lemma parseAbbr_consumes_80_witness :
  List.length sample_wire = 80%nat /\ List.length second_wire = 80%nat /\
  exists br1 br2,
    parseAbbr (BufferReader_new headers_wire) sample_header
      = (Ok br1, decoded sample_wire sample_header) /\
    parseAbbr br1 (decoded sample_wire sample_header)
      = (Ok br2, decoded second_wire (decoded sample_wire sample_header)) /\
    br_offset br2 = 160%nat.
Proof.
  split; [reflexivity|]. split; [reflexivity|].
  destruct (parseAbbr_consumes_80 sample_wire second_wire [x03; x04]
              sample_header eq_refl eq_refl)
    as (_ & br1 & br2 & H1 & _ & H2 & H3 & _).
  exists br1, br2. split; [exact H1|]. split; [exact H2|exact H3].
Defined.

Lemma parseAbbr_truncated_prefix_witness :
  (List.length short_wire < 80)%nat /\
  fst (parseAbbr (BufferReader_new short_wire) sample_header)
    = Throw OutOfBounds /\
  bits (snd (parseAbbr (BufferReader_new short_wire) sample_header))
    = 16843009 /\
  nonce (snd (parseAbbr (BufferReader_new short_wire) sample_header))
    = nonce sample_header /\
  snd (parseAbbr (BufferReader_new (@nil byte)) sample_header)
    = sample_header.
Proof.
  assert (Hlen : (List.length short_wire < 80)%nat) by (cbn; lia).
  assert (Hnil : (List.length (@nil byte) < 80)%nat) by (cbn; lia).
  split; [exact Hlen|].
  destruct (parseAbbr_truncated_prefix short_wire sample_header Hlen)
    as (H1 & _ & _ & _ & _ & H2 & H3 & _).
  destruct (parseAbbr_truncated_prefix [] sample_header Hnil)
    as (_ & _ & _ & _ & _ & _ & _ & H4).
  split; [exact H1|]. split; [exact H2|]. split; [exact H3|].
  apply H4. cbn. lia.
Defined.

Lemma hash_writes_only_hash_caches_witness :
  consensus (snd (hash sample_hash256 (VStr "hex") sample_header))
    = consensus sample_header /\
  _size (snd (hash sample_hash256 (VStr "hex") loaded_header)) = 285 /\
  _hash (snd (hash sample_hash256 (VStr "hex") loaded_header))
    = Some [x00] /\
  snd (hash sample_hash256 (VStr "hex") mutable_header) = mutable_header.
Proof.
  destruct (hash_writes_only_hash_caches sample_hash256 (VStr "hex")
              sample_header _ _ (surjective_pairing _))
    as (H1 & _).
  destruct (hash_writes_only_hash_caches sample_hash256 (VStr "hex")
              loaded_header _ _ (surjective_pairing _))
    as (_ & _ & _ & H2 & _ & _ & _ & H3 & _).
  destruct (hash_writes_only_hash_caches sample_hash256 (VStr "hex")
              mutable_header _ _ (surjective_pairing _))
    as (_ & _ & _ & _ & _ & H4 & _).
  split; [exact H1|]. split; [exact H2|].
  split; [exact (H3 _ eq_refl)|exact (H4 eq_refl)].
Defined.

Lemma toInv_is_block_and_hash_hex_witness :
  cache_coherent sample_header /\
  exists raw b1 b2,
    hash sample_hash256 VUndefined sample_header = (Ok (Raw raw), b1) /\
    toInv sample_hash256 2%nat sample_header
      = (Ok {| inv_type := 2%nat; inv_hash := Hex (toString_hex raw) |},
         b2) /\
    List.length raw = 80%nat.
Proof.
  assert (Hc : cache_coherent sample_header)
    by (intros s Hs; discriminate Hs).
  split; [exact Hc|].
  destruct (abbr_valid_length sample_header eq_refl) as (data & Ha & Hl).
  pose proof (hash_raw_fresh sample_hash256 sample_header data eq_refl Ha)
    as Hh.
  destruct (toInv_is_block_and_hash_hex sample_hash256 2%nat sample_header
              _ _ Hc Hh) as ((b2 & H1 & _) & _).
  eexists. eexists. exists b2.
  split; [exact Hh|]. split; [exact H1|exact Hl].
Defined.

Lemma rhash_revHex_round_trip_witness :
  cache_coherent sample_header /\
  exists raw b1 b2,
    hash sample_hash256 VUndefined sample_header = (Ok (Raw raw), b1) /\
    rhash sample_hash256 sample_header
      = (Ok (toString_hex (rev raw)), b2) /\
    revHex (toString_hex (rev raw)) = toString_hex raw.
Proof.
  assert (Hc : cache_coherent sample_header)
    by (intros s Hs; discriminate Hs).
  split; [exact Hc|].
  destruct (abbr_valid_length sample_header eq_refl) as (data & Ha & Hl).
  pose proof (hash_raw_fresh sample_hash256 sample_header data eq_refl Ha)
    as Hh.
  destruct (rhash_revHex_round_trip sample_hash256 sample_header _ _ Hc Hh)
    as (b2 & H1 & _ & H2 & _).
  eexists. eexists. exists b2.
  split; [exact Hh|]. split; [exact H1|exact H2].
Defined.

Lemma refresh_shallow_deep_and_undo_witness :
  txs (snd (refresh S (VBool true) loaded_header))
    = Some [2%nat; 3%nat] /\
  txs (snd (refresh S VUndefined loaded_header)) = Some [1%nat; 2%nat] /\
  caches sample_header = (None, None, -1, -1) /\
  refresh (fun t : unit => t) VUndefined
    (snd (hash sample_hash256 (VStr "hex") sample_header))
    = (Ok tt, sample_header).
Proof.
  destruct (refresh_shallow_deep_and_undo S sample_hash256 (VBool true)
              VUndefined loaded_header) as (_ & H1 & _).
  destruct (refresh_shallow_deep_and_undo S sample_hash256 VUndefined
              VUndefined loaded_header) as (_ & H2 & _).
  destruct (refresh_shallow_deep_and_undo (fun t : unit => t)
              sample_hash256 VUndefined (VStr "hex") sample_header)
    as (_ & _ & _ & H3).
  split; [exact H1|]. split; [exact H2|].
  split; [reflexivity|exact (H3 eq_refl)].
Defined.

Lemma injectors_overwrite_all_fields_witness :
  well_formed mutable_options = true /\
  consensus (snd (parseOptions mutable_options stale_header))
    = consensus (snd (parseOptions mutable_options sample_header)) /\
  parseOptions mutable_options (snd (parseOptions mutable_options stale_header))
    = (Ok tt, snd (parseOptions mutable_options stale_header)).
Proof.
  split; [reflexivity|].
  destruct (injectors_overwrite_all_fields mutable_options sample_header
              stale_header eq_refl) as (_ & H1 & _).
  destruct (injectors_overwrite_all_fields mutable_options stale_header
              sample_header eq_refl) as (_ & _ & _ & H2 & _).
  split; [exact H1|exact H2].
Defined.

Lemma parseJSON_is_parseOptions_reversed_witness :
  well_formed wire_options = true /\ well_formed display_json = true /\
  parseOptions wire_options sample_header
    = parseJSON display_json sample_header.
Proof.
  split; [reflexivity|]. split; [reflexivity|].
  apply (parseJSON_is_parseOptions_reversed wire_options display_json
           sample_header); reflexivity.
Defined.

Lemma reachable_invariants_witness :
  reachable (fun t : unit => t) sample_hash256 hashed_header /\
  _size hashed_header = -1 /\ txs hashed_header = None /\
  exists h, _hash hashed_header = Some h /\
            _hhash hashed_header = Some (toString_hex h).
Proof.
  assert (Hr : reachable (fun t : unit => t) sample_hash256 hashed_header).
  { apply (reachable_step _ _ AbstractBlock_new).
    - apply reachable_new.
    - apply (step_hash _ _ (VStr "hex") AbstractBlock_new
               (fst (hash sample_hash256 (VStr "hex")
                       (@AbstractBlock_new unit)))).
      apply surjective_pairing. }
  split; [exact Hr|].
  destruct (reachable_invariants _ _ hashed_header Hr)
    as (H1 & _ & H3 & H4).
  split; [exact H1|]. split; [exact H3|].
  destruct (H4 _ eq_refl) as (h & Hh & Hs).
  exists h. split; [exact Hh|]. rewrite <- Hs. reflexivity.
Defined.

Lemma abbr_separates_valid_headers_witness :
  valid_fields mutable_header = true /\
  valid_fields renonced_header = true /\
  valid_fields sample_header = true /\
  abbr mutable_header = abbr sample_header /\
  abbr renonced_header <> abbr mutable_header.
Proof.
  split; [reflexivity|]. split; [reflexivity|]. split; [reflexivity|].
  split.
  - apply (abbr_separates_valid_headers mutable_header sample_header
             eq_refl eq_refl). reflexivity.
  - intros H.
    apply (abbr_separates_valid_headers renonced_header mutable_header
             eq_refl eq_refl) in H.
    vm_compute in H. discriminate H.
Defined.

Lemma verify_on_valid_header_witness :
  valid_fields (core passing_probe) = true /\
  valid_fields (core failing_probe) = true /\
  verify sample_scrypt sample_verifyPOW passing_probe
    = (Ok true, snd (verifyBody passing_probe)) /\
  verify sample_scrypt sample_verifyPOW failing_probe
    = (Ok false, failing_probe).
Proof.
  assert (Hp : valid_fields (core passing_probe) = true) by reflexivity.
  assert (Hf : valid_fields (core failing_probe) = true) by reflexivity.
  split; [exact Hp|]. split; [exact Hf|].
  destruct (verify_on_valid_header sample_scrypt sample_verifyPOW
              passing_probe Hp) as (d1 & Ha1 & _ & _ & Hv1).
  destruct (verify_on_valid_header sample_scrypt sample_verifyPOW
              failing_probe Hf) as (d2 & Ha2 & _ & _ & Hv2).
  vm_compute in Ha1. inversion Ha1. subst d1.
  vm_compute in Ha2. inversion Ha2. subst d2.
  split.
  - apply (Hv1 true (snd (verifyBody passing_probe))). reflexivity.
  - apply (Hv2 true (snd (verifyBody failing_probe))). reflexivity.
Defined.
